(** * Event-log ABI engine of web3.py: filters, topic sets and log decoding

    A shallow embedding of [web3/utils/events.py]: the type classifier
    [is_dynamic_sized_type], the argument matcher [ArgumentFilter], the topic
    normaliser [normalize_topic_list], the filter builder
    [EventFilterBuilder], the exhaustive combination builders
    [construct_event_topic_set] / [construct_event_data_set] and the log
    decoder [get_event_data].

    Python exceptions are values of [exn] carried by the [result] monad.
    The ABI codec and Keccak-256, which the module imports from [eth_abi] and
    [eth_utils], are the fields of the class [Codec]. *)

From Stdlib Require Import Strings.Ascii Strings.Byte.
From stdpp Require Import base option list strings gmap fin_maps.

Local Open Scope string_scope.
Local Open Scope list_scope.
Local Open Scope nat_scope.

(** ** Python values *)

Abbreviation bytes := (list Byte.byte).

(** The values this module handles.  [PyList] stands for a Python list or
    tuple: [is_list_like] holds of both and the module tells them apart
    nowhere. *)
#[warnings="-register-all"] Inductive pyval : Type :=
| PyNone
| PyBool (b : bool)
| PyInt (z : Z)
| PyStr (s : string)
| PyBytes (bs : bytes)
| PyList (l : list pyval).

#[global] Instance byte_eq_dec : EqDecision Byte.byte := Byte.byte_eq_dec.

(** [eth_utils.is_list_like]: lists and tuples, not [str] nor [bytes]. *)
Definition is_list_like (v : pyval) : bool :=
  match v with PyList _ => true | _ => false end.

(** [v is None]. *)
Definition is_None (v : pyval) : bool :=
  match v with PyNone => true | _ => false end.

(** Python's [==] on these values ([True == 1] and [False == 0] included).
    [PyList] standing for a list and for a tuple, two of them with equal
    elements are equal here, where Python tells a list from a tuple: the
    comparison is Python's whenever one side is not a list or tuple. *)
Fixpoint py_eq (a b : pyval) : bool :=
  match a, b with
  | PyNone, PyNone => true
  | PyBool x, PyBool y => bool_decide (x = y)
  | PyBool x, PyInt z | PyInt z, PyBool x => bool_decide (z = if x then 1%Z else 0%Z)
  | PyInt x, PyInt y => bool_decide (x = y)
  | PyStr x, PyStr y => bool_decide (x = y)
  | PyBytes x, PyBytes y => bool_decide (x = y)
  | PyList l1, PyList l2 =>
      (fix go (l1 l2 : list pyval) : bool :=
         match l1, l2 with
         | [], [] => true
         | x :: r1, y :: r2 => py_eq x y && go r1 r2
         | _, _ => false
         end) l1 l2
  | _, _ => false
  end.

(** ** Exceptions and the error monad *)

Inductive exn : Type :=
| MismatchedABI (msg : string)
| ValueError_argument_count
    (* "When passing an argument list, the number of arguments must match
       the event constructor." *)
| ValueError_topic_count (expected got : nat)
    (* "Expected {0} log topics.  Got {1}" *)
| ValueError_duplicate_names (names : list string)
    (* "Invalid Event ABI:  The following argument names are duplicated
       between event inputs: '{0}'" *)
| TypeError
| AttributeError (attr : string)
| CodecError (primitive : string)
    (* whatever an imported primitive raises: process_type, encode_single,
       decode_abi, decode_single, to_bytes *).

Inductive result (A : Type) : Type :=
| Ok (a : A)
| Raise (e : exn).
Arguments Ok {A} a.
Arguments Raise {A} e.

#[global] Instance result_bind : MBind result := λ A B k r,
  match r with Ok a => k a | Raise e => Raise e end.
#[global] Instance result_ret : MRet result := λ A a, Ok a.
#[global] Instance result_fmap : FMap result := λ A B f r,
  match r with Ok a => Ok (f a) | Raise e => Raise e end.

(** A primitive that may raise: [None] becomes [CodecError name]. *)
Definition primitive {A} (name : string) (o : option A) : result A :=
  match o with Some a => Ok a | None => Raise (CodecError name) end.

(** A comprehension [f(x) for x in l], evaluated left to right; the first
    exception ends it. *)
Fixpoint for_each {A B} (f : A → result B) (l : list A) : result (list B) :=
  match l with
  | [] => Ok []
  | x :: r => y ← f x; ys ← for_each f r; Ok (y :: ys)
  end.

(** ** Hex rendering

    [eth_utils.encode_hex] on bytes: lowercase, two digits a byte, prefixed
    with 0x.  [to_hex] on a bytes value is [encode_hex]. *)

Definition hex_digit (n : N) : ascii :=
  match n with
  | 0 => "0" | 1 => "1" | 2 => "2" | 3 => "3" | 4 => "4" | 5 => "5"
  | 6 => "6" | 7 => "7" | 8 => "8" | 9 => "9" | 10 => "a" | 11 => "b"
  | 12 => "c" | 13 => "d" | 14 => "e" | _ => "f"
  end%N%char.

Fixpoint hexlify (bs : bytes) : string :=
  match bs with
  | [] => ""
  | b :: r =>
      String (hex_digit (Byte.to_N b / 16))
        (String (hex_digit (Byte.to_N b mod 16)) (hexlify r))
  end.

Definition encode_hex (bs : bytes) : string := "0x" +:+ hexlify bs.

(** ** Event descriptors and log entries *)

Record InputParameter : Type := {
  name : string;
  type : string;
  indexed : bool
}.

Record EventDescriptor : Type := {
  event_name : string;
  anonymous : bool;
  inputs : list InputParameter
}.

Record LogEntry : Type := {
  topics : list bytes;
  data : pyval;
  logIndex : pyval;
  transactionIndex : pyval;
  transactionHash : pyval;
  address : pyval;
  blockHash : pyval;
  blockNumber : pyval
}.

(** ** Imported primitives

    The functions the module imports from [eth_abi], [eth_utils] and
    [web3.utils]: ABI encoding and decoding, the type-string parser,
    Keccak-256 and the event-signature hash. *)
Class Codec : Type := {
  (** [eth_abi.abi.process_type]: base type, size suffix, array dimensions. *)
  process_type : string → option (string * string * list (list nat));
  (** [eth_abi.encode_single]. *)
  encode_single : string → pyval → option bytes;
  (** [eth_abi.decode_single]. *)
  decode_single : string → bytes → option pyval;
  (** [eth_abi.decode_abi]. *)
  decode_abi : list string → bytes → option (list pyval);
  (** [eth_utils.keccak]. *)
  keccak : bytes → bytes;
  (** [eth_utils.event_abi_to_log_topic]. *)
  event_abi_to_log_topic : EventDescriptor → bytes;
  (** [eth_utils.to_hex] on the empty list, which
      [EventFilterBuilder._initial_event_topic] returns for an anonymous
      event ([eth_utils] raises [TypeError] there). *)
  to_hex_of_empty_list : result string;
  (** [hexstr_if_str(to_bytes, _)] of [web3.utils.encoding]. *)
  hexstr_if_str_to_bytes : pyval → option bytes;
  (** [web3.utils.abi.normalize_event_input_types]. *)
  normalize_event_input_types : list InputParameter → list InputParameter;
  (** [map_abi_data(BASE_RETURN_NORMALIZERS, types, data)]. *)
  map_abi_data : list string → list pyval → list pyval
}.

(** Modelled from the spec: [get_indexed_event_inputs] of [web3/utils/abi.py],
    the indexed inputs of the descriptor in declaration order. *)
Definition get_indexed_event_inputs (event_abi : EventDescriptor)
  : list InputParameter :=
  filter (λ arg, indexed arg = true) (inputs event_abi).

(** Modelled from the spec: [exclude_indexed_event_inputs] of
    [web3/utils/abi.py], the non-indexed inputs in declaration order. *)
Definition exclude_indexed_event_inputs (event_abi : EventDescriptor)
  : list InputParameter :=
  filter (λ arg, indexed arg = false) (inputs event_abi).

(** Modelled from the spec: [get_abi_input_names] of [web3/utils/abi.py], the
    names of the given inputs in order. *)
Definition get_abi_input_names (abi_inputs : list InputParameter)
  : list string :=
  map name abi_inputs.

(** ** Topic normaliser *)

(** [pop_singlets]: [i[0] if is_list_like(i) and len(i) == 1 else i]. *)
Definition pop_singlets (seq : list pyval) : list pyval :=
  map (λ i, match i with PyList [x] => x | _ => i end) seq.

(** The [while] loop of [remove_trailing_from_seq], from [index] down. *)
Fixpoint trailing_index (remove_value : pyval) (seq : list pyval)
    (index : nat) : nat :=
  match index with
  | 0 => 0
  | S i =>
      match seq !! i with
      | Some x => if py_eq x remove_value
                  then trailing_index remove_value seq i
                  else index
      | None => index
      end
  end.

(** [remove_trailing_from_seq(seq, remove_value)]: [seq[:index]]. *)
Definition remove_trailing_from_seq (remove_value : pyval)
    (seq : list pyval) : list pyval :=
  take (trailing_index remove_value seq (length seq)) seq.

(** [compose(remove_trailing_from_seq(remove_value=None), pop_singlets)]. *)
Definition normalize_topic_list (seq : list pyval) : list pyval :=
  remove_trailing_from_seq PyNone (pop_singlets seq).

(** ** Type classifier *)

Section WithCodec.
Context `{Codec}.

Definition is_dynamic_sized_type (_type : string) : result bool :=
  '(base_type, type_size, arrlist) ← primitive "process_type" (process_type _type);
  if bool_decide (arrlist ≠ []) then Ok true
  else if bool_decide (base_type = "string") then Ok true
  else if bool_decide (base_type = "bytes") && bool_decide (type_size = "")
  then Ok true
  else Ok false.

(** ** Argument matcher *)

(** [eth_utils.to_hex] on a bytes value: [encode_hex(primitive)]. *)
Definition to_hex (primitive : bytes) : string := encode_hex primitive.

(** The attributes of an [ArgumentFilter] object ([__init__] does not keep
    [name]). *)
Record ArgumentFilter : Type := {
  arg_type : string;
  is_indexed : bool;
  raw_match_values : list pyval;
  encoded_match_values : list pyval;
  is_dynamic : bool
}.

(** [ArgumentFilter.__init__]. *)
Definition ArgumentFilter_init (arg_type : string) (name : string)
    (indexed : bool) : result ArgumentFilter :=
  dynamic ← is_dynamic_sized_type arg_type;
  Ok {| arg_type := arg_type;
        is_indexed := indexed;
        raw_match_values := [PyNone];
        encoded_match_values := [PyNone];
        is_dynamic := dynamic |}.

Definition _normalize (value : pyval) : pyval := value.

Definition _encode (self : ArgumentFilter) (value : pyval) : result string :=
  encoded_value ← primitive "encode_single" (encode_single (arg_type self) value);
  if is_indexed self && is_dynamic self
  then Ok (to_hex (keccak encoded_value))
  else Ok (to_hex encoded_value).

(** The object after the two assignments of a [match_*] method. *)
Definition set_match_values (self : ArgumentFilter)
    (raw encoded : list pyval) : ArgumentFilter :=
  {| arg_type := arg_type self;
     is_indexed := is_indexed self;
     raw_match_values := raw;
     encoded_match_values := encoded;
     is_dynamic := is_dynamic self |}.

(** [match_single]: the object after the call, or the exception of
    [_encode], in which case the object is as before. *)
Definition match_single (self : ArgumentFilter) (value : pyval)
  : result ArgumentFilter :=
  let normalized := _normalize value in
  encoded ← _encode self normalized;
  Ok (set_match_values self [normalized] [PyStr encoded]).

Definition match_any (self : ArgumentFilter) (values : list pyval)
  : result ArgumentFilter :=
  let normalized := map _normalize values in
  encoded ← for_each (λ value, PyStr <$> _encode self value) normalized;
  Ok (set_match_values self normalized encoded).

(** ** Filter topic builder *)

(** A [dict] with its insertion order: assigning to a key that is present
    replaces the value where the key stands. *)
Fixpoint dict_set {A} (d : list (string * A)) (k : string) (v : A)
  : list (string * A) :=
  match d with
  | [] => [(k, v)]
  | (k', v') :: r =>
      if decide (k' = k) then (k, v) :: r else (k', v') :: dict_set r k v
  end.

(** [dict(pairs)], as [@to_dict] and [dict(itertools.chain(...))] build it. *)
Definition to_dict {A} (pairs : list (string * A)) : list (string * A) :=
  foldl (λ d kv, dict_set d kv.1 kv.2) [] pairs.

(** [toolz.valfilter(predicate, d)]. *)
Definition valfilter {A} (predicate : A → bool) (d : list (string * A))
  : list (string * A) :=
  filter (λ kv, predicate kv.2 = true) d.

(** What iterating yields: the keys of a dict are strings, its values here
    are matcher objects. *)
Inductive pyobj : Type :=
| ObjStr (s : string)
| ObjArgumentFilter (af : ArgumentFilter).

(** [for arg in d]: iterating a dict yields its keys. *)
Definition dict_iter (d : list (string * ArgumentFilter)) : list pyobj :=
  map (λ kv, ObjStr kv.1) d.

(** [for arg in d.values()]. *)
Definition dict_values (d : list (string * ArgumentFilter)) : list pyobj :=
  map (λ kv, ObjArgumentFilter kv.2) d.

(** The attribute access [arg.encoded_match_values]. *)
Definition get_encoded_match_values (arg : pyobj) : result (list pyval) :=
  match arg with
  | ObjArgumentFilter af => Ok (encoded_match_values af)
  | ObjStr _ => Raise (AttributeError "encoded_match_values")
  end.

(** [is_indexed] returns [True] or falls off its end ([None]);
    [not_indexed = complement(is_indexed)]. *)
Definition is_indexed_arg (arg : ArgumentFilter) : bool := is_indexed arg.
Definition not_indexed (arg : ArgumentFilter) : bool :=
  negb (is_indexed_arg arg).

(** What [_initial_event_topic] returns: the signature hash, or [list()]. *)
Inductive event_topic_value : Type :=
| TopicHash (h : bytes)
| EmptyList.

(** [to_hex(self.event_topic)]. *)
Definition to_hex_event_topic (t : event_topic_value) : result string :=
  match t with
  | TopicHash h => Ok (to_hex h)
  | EmptyList => to_hex_of_empty_list
  end.

(** The attributes of an [EventFilterBuilder].  The three dicts hold the
    same matcher objects: a matcher reached through [args] is the one
    [indexed_args] or [data_args] holds under the same key, which
    [builder_update] keeps so. *)
Record EventFilterBuilder : Type := {
  event_abi : EventDescriptor;
  event_topic : event_topic_value;
  args : list (string * ArgumentFilter);
  indexed_args : list (string * ArgumentFilter);
  data_args : list (string * ArgumentFilter)
}.

Definition _initial_event_topic (event_abi : EventDescriptor)
  : event_topic_value :=
  if bool_decide (anonymous event_abi = false)
  then TopicHash (event_abi_to_log_topic event_abi)
  else EmptyList.

Definition _init_argument_filters (event_abi : EventDescriptor)
  : result (list (string * ArgumentFilter)) :=
  to_dict <$>
    for_each (λ item,
      let key := name item in
      value ← ArgumentFilter_init (type item) (name item) (indexed item);
      Ok (key, value)) (inputs event_abi).

(** [EventFilterBuilder.__init__]. *)
Definition EventFilterBuilder_init (event_abi : EventDescriptor)
  : result EventFilterBuilder :=
  let event_topic := _initial_event_topic event_abi in
  args ← _init_argument_filters event_abi;
  Ok {| event_abi := event_abi;
        event_topic := event_topic;
        args := args;
        indexed_args := valfilter is_indexed_arg args;
        data_args := valfilter not_indexed args |}.

(** The matcher under [key] replaced by [af] wherever the builder holds
    it. *)
Definition dict_replace (key : string) (af : ArgumentFilter)
    (d : list (string * ArgumentFilter)) : list (string * ArgumentFilter) :=
  map (λ kv, if decide (kv.1 = key) then (kv.1, af) else kv) d.

Definition builder_update (self : EventFilterBuilder) (key : string)
    (af : ArgumentFilter) : EventFilterBuilder :=
  {| event_abi := event_abi self;
     event_topic := event_topic self;
     args := dict_replace key af (args self);
     indexed_args := dict_replace key af (indexed_args self);
     data_args := dict_replace key af (data_args self) |}.

(** [self.args[key]]. *)
Fixpoint dict_get {A} (d : list (string * A)) (key : string) : option A :=
  match d with
  | [] => None
  | (k, v) :: r => if decide (k = key) then Some v else dict_get r key
  end.

(** [builder.args[key].match_single(value)]; a missing key or a failed
    encoding leaves the builder as it was. *)
Definition builder_match_single (self : EventFilterBuilder) (key : string)
    (value : pyval) : EventFilterBuilder :=
  match dict_get (args self) key with
  | Some af =>
      match match_single af value with
      | Ok af' => builder_update self key af'
      | Raise _ => self
      end
  | None => self
  end.

(** [builder.args[key].match_any] on the given values. *)
Definition builder_match_any (self : EventFilterBuilder) (key : string)
    (values : list pyval) : EventFilterBuilder :=
  match dict_get (args self) key with
  | Some af =>
      match match_any af values with
      | Ok af' => builder_update self key af'
      | Raise _ => self
      end
  | None => self
  end.

(** The property [topics]. *)
Definition builder_topics (self : EventFilterBuilder) : result (list pyval) :=
  arg_topics ←
    for_each (λ arg, PyList <$> get_encoded_match_values arg)
      (dict_values (indexed_args self));
  event_topic_hex ← to_hex_event_topic (event_topic self);
  Ok (normalize_topic_list (PyStr event_topic_hex :: arg_topics)).

(** The property [data_arguments]. *)
Definition data_arguments (self : EventFilterBuilder)
  : result (list pyval) :=
  for_each (λ arg, PyList <$> get_encoded_match_values arg)
    (dict_iter (data_args self)).

(** ** Exhaustive combination builder *)

(** The [arguments] parameter: left out, a list or tuple, or a dict. *)
Inductive arguments_value : Type :=
| ArgsNone
| ArgsSeq (l : list pyval)
| ArgsDict (d : gmap string pyval).

(** The first lines of both builders: [arguments] as a dict. *)
Definition arguments_as_dict (event_abi : EventDescriptor)
    (arguments : arguments_value) : result (gmap string pyval) :=
  match arguments with
  | ArgsNone => Ok ∅
  | ArgsSeq l =>
      if bool_decide (length l ≠ length (inputs event_abi))
      then Raise ValueError_argument_count
      else Ok (foldl (λ d p, <[name p.1 := PyList [p.2]]> d) ∅
                 (zip (inputs event_abi) l))
  | ArgsDict d => Ok d
  end.

(** [value if is_list_like(value) else [value]], as the list of options. *)
Definition normalized_arg (value : pyval) : list pyval :=
  match value with
  | PyList l => l
  | _ => [value]
  end.

(** [normalized_args.get(arg['name'], [None])] for each given input. *)
Definition zip_abi_and_args (normalized_args : gmap string (list pyval))
    (abi_args : list InputParameter)
  : list (InputParameter * list pyval) :=
  map (λ arg, (arg, default [PyNone] (normalized_args !! name arg))) abi_args.

(** [None if option is None else encode_hex(encode_single(arg['type'],
    option))] over every option of every input. *)
Definition encode_args (zipped_abi_and_args : list (InputParameter * list pyval))
  : result (list (list pyval)) :=
  for_each (λ '(arg, arg_options),
    for_each (λ option,
      if is_None option then Ok PyNone
      else encoded ← primitive "encode_single" (encode_single (type arg) option);
           Ok (PyStr (encode_hex encoded)))
      arg_options)
    zipped_abi_and_args.

(** [itertools.product] of the iterables: the rightmost one runs fastest. *)
Fixpoint product {A} (iterables : list (list A)) : list (list A) :=
  match iterables with
  | [] => [[]]
  | l :: rest => x ← l; (x ::.) <$> product rest
  end.

(** [any(value is not None for value in permutation)]. *)
Definition any_not_None (permutation : list pyval) : bool :=
  existsb (λ value, negb (is_None value)) permutation.

Definition construct_event_topic_set (event_abi : EventDescriptor)
    (arguments : arguments_value) : result (list (list pyval)) :=
  arguments ← arguments_as_dict event_abi arguments;
  let normalized_args := normalized_arg <$> arguments in
  let event_topic := encode_hex (event_abi_to_log_topic event_abi) in
  let indexed_args := get_indexed_event_inputs event_abi in
  let zipped_abi_and_args := zip_abi_and_args normalized_args indexed_args in
  encoded_args ← encode_args zipped_abi_and_args;
  Ok (map (λ permutation,
             if any_not_None permutation
             then PyStr event_topic :: permutation
             else [PyStr event_topic])
          (product encoded_args)).

Definition construct_event_data_set (event_abi : EventDescriptor)
    (arguments : arguments_value) : result (list (list pyval)) :=
  arguments ← arguments_as_dict event_abi arguments;
  let normalized_args := normalized_arg <$> arguments in
  let non_indexed_args := exclude_indexed_event_inputs event_abi in
  let zipped_abi_and_args := zip_abi_and_args normalized_args non_indexed_args in
  encoded_args ← encode_args zipped_abi_and_args;
  Ok (map (λ permutation,
             if any_not_None permutation then permutation else [])
          (product encoded_args)).

(** ** Log decoder *)

Definition get_event_abi_types_for_decoding
    (event_inputs : list InputParameter) : result (list string) :=
  for_each (λ input_abi,
    if indexed input_abi
    then dynamic ← is_dynamic_sized_type (type input_abi);
         Ok (if dynamic : bool then "bytes32" else type input_abi)
    else Ok (type input_abi))
    event_inputs.

(** The event record [get_event_data] returns. *)
Record DecodedEvent : Type := {
  ev_args : list (string * pyval);
  ev_event : string;
  ev_logIndex : pyval;
  ev_transactionIndex : pyval;
  ev_transactionHash : pyval;
  ev_address : pyval;
  ev_blockHash : pyval;
  ev_blockNumber : pyval
}.

(** The first statement of [get_event_data]: the topics that carry the
    indexed arguments. *)
Definition get_log_topics (event_abi : EventDescriptor) (log_entry : LogEntry)
  : result (list bytes) :=
  if anonymous event_abi then Ok (topics log_entry)
  else match topics log_entry with
       | [] =>
           Raise (MismatchedABI
                    "Expected non-anonymous event to have 1 or more topics")
       | topic0 :: rest =>
           if bool_decide (event_abi_to_log_topic event_abi ≠ topic0)
           then Raise (MismatchedABI
                         "The event signature did not match the provided ABI")
           else Ok rest
       end.

(** The rest of [get_event_data], from [log_topics_abi] on. *)
Definition decode_event_data (event_abi : EventDescriptor)
    (log_entry : LogEntry) (log_topics : list bytes) : result DecodedEvent :=
  let log_topics_abi := get_indexed_event_inputs event_abi in
  let log_topic_normalized_inputs := normalize_event_input_types log_topics_abi in
  log_topic_types ← get_event_abi_types_for_decoding log_topic_normalized_inputs;
  let log_topic_names := get_abi_input_names log_topics_abi in
  if bool_decide (length log_topics ≠ length log_topic_types)
  then Raise (ValueError_topic_count (length log_topic_types) (length log_topics))
  else
  log_data ← primitive "to_bytes" (hexstr_if_str_to_bytes (data log_entry));
  let log_data_abi := exclude_indexed_event_inputs event_abi in
  let log_data_normalized_inputs := normalize_event_input_types log_data_abi in
  log_data_types ← get_event_abi_types_for_decoding log_data_normalized_inputs;
  let log_data_names := get_abi_input_names log_data_abi in
  let duplicate_names : gset string :=
    list_to_set log_topic_names ∩ list_to_set log_data_names in
  if bool_decide (duplicate_names ≠ ∅)
  then Raise (ValueError_duplicate_names (elements duplicate_names))
  else
  decoded_log_data ← primitive "decode_abi" (decode_abi log_data_types log_data);
  let normalized_log_data := map_abi_data log_data_types decoded_log_data in
  decoded_topic_data ←
    for_each (λ '(topic_type, topic_data),
                primitive "decode_single" (decode_single topic_type topic_data))
      (zip log_topic_types log_topics);
  let normalized_topic_data := map_abi_data log_topic_types decoded_topic_data in
  let event_args :=
    to_dict (zip log_topic_names normalized_topic_data
             ++ zip log_data_names normalized_log_data) in
  Ok {| ev_args := event_args;
        ev_event := event_name event_abi;
        ev_logIndex := logIndex log_entry;
        ev_transactionIndex := transactionIndex log_entry;
        ev_transactionHash := transactionHash log_entry;
        ev_address := address log_entry;
        ev_blockHash := blockHash log_entry;
        ev_blockNumber := blockNumber log_entry |}.

Definition get_event_data (event_abi : EventDescriptor) (log_entry : LogEntry)
  : result DecodedEvent :=
  log_topics ← get_log_topics event_abi log_entry;
  decode_event_data event_abi log_entry log_topics.

End WithCodec.

(** ** Deterministic stand-ins for the imported primitives

    A small codec on which the definitions above evaluate: a table for
    [process_type], the characters of a string or the low byte of an integer
    for [encode_single], and a 32-byte digest for [keccak]. *)
Module Standin.

Definition process_type (_type : string)
  : option (string * string * list (list nat)) :=
  if bool_decide (_type = "string") then Some ("string", "", [])
  else if bool_decide (_type = "bytes") then Some ("bytes", "", [])
  else if bool_decide (_type = "bytes32") then Some ("bytes", "32", [])
  else if bool_decide (_type = "uint256") then Some ("uint", "256", [])
  else if bool_decide (_type = "bool") then Some ("bool", "", [])
  else if bool_decide (_type = "string[]") then Some ("string", "", [[]])
  else None.

Definition encode_single (_type : string) (value : pyval) : option bytes :=
  match value with
  | PyStr s =>
      if bool_decide (_type = "string") then Some (String.list_byte_of_string s)
      else None
  | PyInt z =>
      if bool_decide (_type = "uint256")
      then (λ b, replicate 31 x00 ++ [b]) <$> Byte.of_N (Z.to_N z)
      else None
  | PyBool b =>
      if bool_decide (_type = "bool")
      then Some (replicate 31 x00 ++ [if b then x01 else x00])
      else None
  | _ => None
  end.

Definition keccak (bs : bytes) : bytes :=
  replicate 31 x6b ++ [default xff (Byte.of_N (N.of_nat (length bs)))].

Definition event_abi_to_log_topic (event_abi : EventDescriptor) : bytes :=
  keccak (String.list_byte_of_string (event_name event_abi)).

Definition hexstr_if_str_to_bytes (value : pyval) : option bytes :=
  match value with
  | PyBytes bs => Some bs
  | PyStr s => Some (String.list_byte_of_string s)
  | _ => None
  end.

Definition decode_single (_type : string) (bs : bytes) : option pyval :=
  Some (PyBytes bs).

Definition decode_abi (types : list string) (bs : bytes)
  : option (list pyval) :=
  Some (map (λ _, PyBytes bs) types).

#[global] Instance codec : Codec :=
  Build_Codec process_type encode_single decode_single decode_abi keccak
    event_abi_to_log_topic (Raise TypeError) hexstr_if_str_to_bytes
    (λ abi_args, abi_args) (λ _ values, values).

End Standin.

(** ** Filter parameters *)

(** The property [filter_params] of [EventFilterBuilder].  [fromBlock],
    [toBlock] and [address] are attributes of the builder ([None] in the
    class, assigned by the caller); they are given here as arguments. *)
Definition filter_params `{Codec} (self : EventFilterBuilder)
    (fromBlock toBlock address : pyval) : result (list (string * pyval)) :=
  topics ← builder_topics self;
  let params := [ ("topics", PyList topics);
                  ("fromBlock", fromBlock);
                  ("toBlock", toBlock);
                  ("address", address) ] in
  Ok (valfilter (λ x, negb (is_None x)) params).

(** ** Transaction helpers

    The functions of [web3/_utils/transactions.py] that compute on
    transaction dicts.  A coroutine is the function of what its awaited
    calls return: the node is the class [Web3], whose calls return integers
    where the JSON-RPC results are quantities.  A transaction dict is a
    [dict] in insertion order, as [dict_set] and [dict_get] have it. *)

Inductive tx_exn : Type :=
| ValueError_not_deployable (gas_estimate gas_limit : Z)
    (* "Contract does not appear to be deployable within the current
       network gas limits.  Estimated: {0}. Current gas limit: {1}" *)
| AttributeError_input_and_data (input data : pyval)
    (* 'failure to handle this transaction due to both "input: {}" and
       "data: {}" are populated. You need to resolve this conflict.' *)
| Exception_unreachable
    (* "Unreachable path: transaction's 'data' is either set or not set" *)
| ValueError_invalid_parameter (param : string)
    (* '{} is not a valid transaction parameter' *)
| ValueError_already_mined (hash : pyval)
    (* 'Supplied transaction with hash {} has already been mined' *)
| ValueError_nonce_mismatch
    (* 'Supplied nonce in new_transaction must match the pending
       transaction' *)
| ValueError_gas_price_too_low
    (* 'Supplied gas price must exceed existing transaction gas price' *)
| TypeError_comparison
    (* an ordering comparison of an integer with a value that has none *)
| Web3Error (method : string)
    (* whatever a call to the node raises *).

Inductive tx_result (A : Type) : Type :=
| Return (a : A)
| Throw (e : tx_exn).
Arguments Return {A} a.
Arguments Throw {A} e.

#[global] Instance tx_result_bind : MBind tx_result := λ A B k r,
  match r with Return a => k a | Throw e => Throw e end.
#[global] Instance tx_result_ret : MRet tx_result := λ A a, Return a.
#[global] Instance tx_result_fmap : FMap tx_result := λ A B f r,
  match r with Return a => Return (f a) | Throw e => Throw e end.

(** A call to the node: [None] is an exception of the call. *)
Definition rpc {A} (method : string) (o : option A) : tx_result A :=
  match o with Some a => Return a | None => Throw (Web3Error method) end.

(** A block as [getBlock] returns it, as far as this module reads it. *)
Record Block : Type := {
  gasLimit : Z
}.

(** A transaction as [getTransaction] returns it, as far as this module
    reads it. *)
Record Transaction : Type := {
  tx_blockHash : pyval;
  tx_hash : pyval;
  tx_nonce : Z;
  tx_gasPrice : Z
}.

(** The node and the gas price strategy, as far as this module calls
    them. *)
Class Web3 : Type := {
  (** [web3.eth.getTransactionCount(account, block_identifier='pending')]. *)
  eth_getTransactionCount : pyval → option Z;
  (** [web3.eth.estimateGas(transaction)]. *)
  eth_estimateGas : list (string * pyval) → option Z;
  (** [web3.eth.generateGasPrice(transaction)]: a price, or [None] when no
      strategy is set. *)
  eth_generateGasPrice : list (string * pyval) → option (option Z);
  (** [web3.eth.gasPrice]. *)
  eth_gasPrice : option Z;
  (** [web3.net.chainId]. *)
  net_chainId : option pyval;
  (** [web3.eth.blockNumber]. *)
  eth_blockNumber : option Z;
  (** [web3.eth.getBlock(block_identifier)]. *)
  eth_getBlock : pyval → option Block;
  (** [int(math.ceil(gas_price * 1.1))], a computation on floats. *)
  minimum_gas_price : Z → Z
}.

Definition VALID_TRANSACTION_PARAMS : list string :=
  [ "from"; "to"; "gas"; "gasPrice"; "value"; "data"; "nonce"; "chainId" ].

(** [key in d]. *)
Definition dict_in {A} (key : string) (d : list (string * A)) : bool :=
  bool_decide (is_Some (dict_get d key)).

(** [d.get(key)]: [None] for a missing key. *)
Definition dict_get_or_None (d : list (string * pyval)) (key : string)
  : pyval :=
  default PyNone (dict_get d key).

(** [toolz.assoc(d, key, value)]: a copy of [d] with [key] assigned. *)
Definition assoc (d : list (string * pyval)) (key : string) (value : pyval)
  : list (string * pyval) :=
  dict_set d key value.

(** [toolz.merge(d1, d2)]: [d1] updated with the entries of [d2]. *)
Definition merge (d1 d2 : list (string * pyval)) : list (string * pyval) :=
  foldl (λ d kv, dict_set d kv.1 kv.2) d1 d2.

(** Truth value of an optional integer: [None] and [0] are false. *)
Definition truthy (v : option Z) : bool :=
  match v with Some z => bool_decide (z ≠ 0%Z) | None => false end.

Section WithWeb3.
Context `{Web3}.

Definition fill_nonce (transaction : list (string * pyval))
  : tx_result (list (string * pyval)) :=
  if dict_in "from" transaction && negb (dict_in "nonce" transaction)
  then count ← rpc "getTransactionCount"
                 (eth_getTransactionCount (dict_get_or_None transaction "from"));
       Return (assoc transaction "nonce" (PyInt count))
  else Return transaction.

(** The dict literal of [coro_fill_transaction_defaults] awaits its calls
    as it is built; none of its values is callable, so every default is the
    value itself. *)
Definition coro_fill_transaction_defaults
    (transaction : list (string * pyval))
  : tx_result (list (string * pyval)) :=
  gas ← rpc "estimateGas" (eth_estimateGas transaction);
  generated ← rpc "generateGasPrice" (eth_generateGasPrice transaction);
  gasPrice ← (if truthy generated
              then Return (default 0%Z generated)
              else rpc "gasPrice" eth_gasPrice);
  chainId ← rpc "chainId" net_chainId;
  let transaction_defaults :=
    [ ("value", PyInt 0); ("data", PyBytes []); ("gas", PyInt gas);
      ("gasPrice", PyInt gasPrice); ("chainId", chainId) ] in
  let defaults :=
    filter (λ kv, dict_in kv.1 transaction = false) transaction_defaults in
  Return (merge defaults transaction).

Definition coro_get_block_gas_limit (block_identifier : pyval)
  : tx_result Z :=
  block_identifier ←
    (if is_None block_identifier
     then PyInt <$> rpc "blockNumber" eth_blockNumber
     else Return block_identifier);
  block ← rpc "getBlock" (eth_getBlock block_identifier);
  Return (gasLimit block).

Definition coro_get_buffered_gas_estimate
    (transaction : list (string * pyval)) (gas_buffer : Z) : tx_result Z :=
  let gas_estimate_transaction := transaction in
  gas_estimate ← rpc "estimateGas" (eth_estimateGas gas_estimate_transaction);
  gas_limit ← coro_get_block_gas_limit PyNone;
  if bool_decide (gas_estimate > gas_limit)%Z
  then Throw (ValueError_not_deployable gas_estimate gas_limit)
  else Return (Z.min gas_limit (gas_estimate + gas_buffer)).

End WithWeb3.

Definition extract_valid_transaction_params
    (transaction_params : list (string * pyval))
  : tx_result (list (string * pyval)) :=
  let extracted_params :=
    omap (λ key, (key,.) <$> dict_get transaction_params key)
      VALID_TRANSACTION_PARAMS in
  if negb (is_None (dict_get_or_None extracted_params "data")) then
    if negb (is_None (dict_get_or_None transaction_params "input")) then
      if negb (py_eq (dict_get_or_None extracted_params "data")
                 (dict_get_or_None transaction_params "input"))
      then Throw (AttributeError_input_and_data
                    (dict_get_or_None transaction_params "input")
                    (dict_get_or_None extracted_params "data"))
      else Return extracted_params
    else Return extracted_params
  else if is_None (dict_get_or_None extracted_params "data") then
    if negb (is_None (dict_get_or_None transaction_params "input"))
    then Return (assoc extracted_params "data"
                   (dict_get_or_None transaction_params "input"))
    else Return extracted_params
  else Throw Exception_unreachable.

Fixpoint assert_valid_transaction_params
    (transaction_params : list (string * pyval)) : tx_result unit :=
  match transaction_params with
  | [] => Return tt
  | (param, _) :: rest =>
      if bool_decide (param ∉ VALID_TRANSACTION_PARAMS)
      then Throw (ValueError_invalid_parameter param)
      else assert_valid_transaction_params rest
  end.

(** [value <= bound] and [value > bound] for an integer [bound]: defined
    on integers and booleans, a [TypeError] on the other values. *)
Definition py_int (value : pyval) : tx_result Z :=
  match value with
  | PyInt z => Return z
  | PyBool b => Return (if b then 1 else 0)%Z
  | _ => Throw TypeError_comparison
  end.

Section WithWeb3Replacement.
Context `{Web3}.

Definition coro_prepare_replacement_transaction
    (current_transaction : Transaction)
    (new_transaction : list (string * pyval))
  : tx_result (list (string * pyval)) :=
  if negb (is_None (tx_blockHash current_transaction))
  then Throw (ValueError_already_mined (tx_hash current_transaction))
  else
  if dict_in "nonce" new_transaction
     && negb (py_eq (dict_get_or_None new_transaction "nonce")
                (PyInt (tx_nonce current_transaction)))
  then Throw ValueError_nonce_mismatch
  else
  let new_transaction :=
    if negb (dict_in "nonce" new_transaction)
    then assoc new_transaction "nonce" (PyInt (tx_nonce current_transaction))
    else new_transaction in
  if dict_in "gasPrice" new_transaction then
    supplied ← py_int (dict_get_or_None new_transaction "gasPrice");
    if bool_decide (supplied ≤ tx_gasPrice current_transaction)%Z
    then Throw ValueError_gas_price_too_low
    else Return new_transaction
  else
    generated_gas_price ←
      rpc "generateGasPrice" (eth_generateGasPrice new_transaction);
    let minimum_gas_price :=
      minimum_gas_price (tx_gasPrice current_transaction) in
    if truthy generated_gas_price
       && bool_decide (default 0 generated_gas_price > minimum_gas_price)%Z
    then Return (assoc new_transaction "gasPrice"
                   (PyInt (default 0%Z generated_gas_price)))
    else Return (assoc new_transaction "gasPrice" (PyInt minimum_gas_price)).

End WithWeb3Replacement.

(** A stand-in node: every account has sent 7 transactions, gas estimates
    are 21000, blocks hold 8000000 gas, no gas price strategy is set. *)
Module StandinWeb3.

#[global] Instance web3 : Web3 :=
  Build_Web3 (λ _, Some 7%Z) (λ _, Some 21000%Z) (λ _, Some None)
    (Some 1000%Z) (Some (PyInt 1)) (Some 100%Z)
    (λ _, Some {| gasLimit := 8000000 |})
    (λ gas_price, (gas_price * 11 / 10 + 1)%Z).

End StandinWeb3.

(** ** Vocabulary of the statements *)

(** A topic position as the filter protocol has it: a wildcard, a scalar
    value, or a list of such values. *)
Definition topic_position (p : pyval) : bool :=
  match p with
  | PyList l => forallb (λ v, negb (is_list_like v)) l
  | _ => true
  end.

(** The states of a matcher built with [ArgumentFilter(arg_type, name,
    indexed)]: the constructed object, and the object after any successful
    [match_single] or [match_any] (a call that raises leaves it as it was). *)
Inductive filter_reachable `{Codec} (arg_type name : string) (indexed : bool)
  : ArgumentFilter → Prop :=
| reachable_init af :
    ArgumentFilter_init arg_type name indexed = Ok af →
    filter_reachable arg_type name indexed af
| reachable_match_single af value af' :
    filter_reachable arg_type name indexed af →
    match_single af value = Ok af' →
    filter_reachable arg_type name indexed af'
| reachable_match_any af values af' :
    filter_reachable arg_type name indexed af →
    match_any af values = Ok af' →
    filter_reachable arg_type name indexed af'.

(** The matcher [ArgumentFilter(arg_type="string", name="arg",
    indexed=True)] as constructed. *)
Definition string_filter : ArgumentFilter :=
  {| arg_type := "string";
     is_indexed := true;
     raw_match_values := [PyNone];
     encoded_match_values := [PyNone];
     is_dynamic := true |}.

(** A non-anonymous descriptor whose name [x] is declared twice, once
    indexed and once not. *)
Definition duplicate_abi : EventDescriptor :=
  {| event_name := "Transfer";
     anonymous := false;
     inputs := [ {| name := "x"; type := "uint256"; indexed := true |};
                 {| name := "x"; type := "uint256"; indexed := false |} ] |}.

(** A log entry with the given topics and empty data. *)
Definition log_with_topics (topics : list bytes) : LogEntry :=
  {| topics := topics;
     data := PyBytes [];
     logIndex := PyInt 0;
     transactionIndex := PyInt 0;
     transactionHash := PyBytes [];
     address := PyStr "0x0";
     blockHash := PyBytes [];
     blockNumber := PyInt 1 |}.

(** A descriptor with one indexed parameter of the dynamic type [string]
    and one non-indexed [uint256]. *)
Definition string_event_abi : EventDescriptor :=
  {| event_name := "Named";
     anonymous := false;
     inputs := [ {| name := "s"; type := "string"; indexed := true |};
                 {| name := "n"; type := "uint256"; indexed := false |} ] |}.

(** An anonymous descriptor with one indexed parameter. *)
Definition anonymous_abi : EventDescriptor :=
  {| event_name := "Anon";
     anonymous := true;
     inputs := [ {| name := "a"; type := "uint256"; indexed := true |} ] |}.

(** A descriptor with one non-indexed parameter. *)
Definition data_abi : EventDescriptor :=
  {| event_name := "Stored";
     anonymous := false;
     inputs := [ {| name := "n"; type := "uint256"; indexed := false |} ] |}.

(** The states of the builder of a descriptor: the constructed object, and
    the object after any [match_single] or [match_any] on one of its
    matchers. *)
Inductive builder_reachable `{Codec} (abi : EventDescriptor)
  : EventFilterBuilder → Prop :=
| builder_init b :
    EventFilterBuilder_init abi = Ok b → builder_reachable abi b
| builder_after_match_single b key value :
    builder_reachable abi b →
    builder_reachable abi (builder_match_single b key value)
| builder_after_match_any b key values :
    builder_reachable abi b →
    builder_reachable abi (builder_match_any b key values).

(** The positions of the indexed arguments: the encoded match values of
    each indexed matcher, in the order of [indexed_args]. *)
Definition arg_topics (b : EventFilterBuilder) : list pyval :=
  map (λ kv, PyList (encoded_match_values kv.2)) (indexed_args b).

(** The options of an input under the arguments [d]:
    [normalized_args.get(arg['name'], [None])]. *)
Definition arg_options (d : gmap string pyval) (arg : InputParameter)
  : list pyval :=
  default [PyNone] ((normalized_arg <$> d) !! name arg).

(** The number of combinations of the options of the given inputs. *)
Definition combinations (d : gmap string pyval)
    (abi_args : list InputParameter) : nat :=
  foldr (λ arg n, length (arg_options d arg) * n) 1 abi_args.

(** The encoding rule of the argument matcher on the ABI encoding [bs] of a
    value: hashed for an indexed parameter of dynamic type, raw otherwise. *)
Definition encoding_rule `{Codec} (indexed dynamic : bool) (bs : bytes)
  : string :=
  if indexed && dynamic then encode_hex (keccak bs) else encode_hex bs.

(** * Properties *)

(** ** Topic normaliser *)

Lemma py_eq_None (x : pyval) : py_eq x PyNone = is_None x.
Proof. by destruct x. Qed.

Lemma is_None_true (x : pyval) : is_None x = true ↔ x = PyNone.
Proof. destruct x; naive_solver. Qed.

Lemma length_pop_singlets (seq : list pyval) :
  length (pop_singlets seq) = length seq.
Proof. apply length_map. Qed.

Lemma trailing_index_le (v : pyval) (seq : list pyval) (n : nat) :
  trailing_index v seq n ≤ n.
Proof.
  induction n as [|n IH]; simpl; [lia|].
  destruct (seq !! n) as [x|]; [|lia].
  destruct (py_eq x v); lia.
Qed.

(** Every position the loop steps over holds [None]. *)
Lemma trailing_index_dropped (seq : list pyval) (n i : nat) (x : pyval) :
  trailing_index PyNone seq n ≤ i < n → seq !! i = Some x → x = PyNone.
Proof.
  induction n as [|n IH]; simpl; [lia|].
  destruct (seq !! n) as [y|] eqn:Hn; [|lia].
  rewrite py_eq_None. destruct (is_None y) eqn:Hy; [|lia].
  intros [Hlo Hhi] Hi. destruct (decide (i = n)) as [->|Hne].
  - apply is_None_true. congruence.
  - apply IH; [lia|done].
Qed.

(** The loop stops at a position that does not hold [None]. *)
Lemma trailing_index_stop (seq : list pyval) (n k : nat) :
  n ≤ length seq → trailing_index PyNone seq n = S k →
  ∃ x, seq !! k = Some x ∧ x ≠ PyNone.
Proof.
  induction n as [|n IH]; simpl; [done|]. intros Hlen.
  destruct (seq !! n) as [y|] eqn:Hn.
  - rewrite py_eq_None. destruct (is_None y) eqn:Hy.
    + apply IH. lia.
    + intros [= <-]. exists y. split; [done|].
      intros ->. discriminate.
  - apply lookup_ge_None in Hn. lia.
Qed.

(** Trimming splits the sequence into the result and a run of [None]. *)
Lemma remove_trailing_from_seq_split (seq : list pyval) :
  seq = remove_trailing_from_seq PyNone seq
        ++ replicate (length seq - length (remove_trailing_from_seq PyNone seq))
             PyNone.
Proof.
  unfold remove_trailing_from_seq.
  set (k := trailing_index PyNone seq (length seq)).
  assert (k ≤ length seq) as Hk by apply trailing_index_le.
  rewrite length_take_le by done.
  rewrite <-(take_drop k seq) at 1. f_equal.
  apply list_eq. intros i. rewrite lookup_drop.
  destruct (decide (i < length seq - k)) as [Hi|Hi].
  - rewrite lookup_replicate_2 by done.
    destruct (seq !! (k + i)) as [x|] eqn:Hx.
    + f_equal. apply (trailing_index_dropped seq (length seq) (k + i)); [|done].
      fold k. lia.
    + apply lookup_ge_None in Hx. lia.
  - rewrite (proj1 (lookup_replicate_None _ _ _)) by lia.
    apply lookup_ge_None. lia.
Qed.

Lemma remove_trailing_from_seq_last (seq : list pyval) :
  last (remove_trailing_from_seq PyNone seq) ≠ Some PyNone.
Proof.
  unfold remove_trailing_from_seq.
  destruct (trailing_index PyNone seq (length seq)) as [|k] eqn:Hk.
  - by rewrite take_0.
  - destruct (trailing_index_stop seq (length seq) k) as (x & Hx & Hne);
      [done..|].
    rewrite last_lookup, length_take_le.
    + simpl. rewrite lookup_take_lt by lia. congruence.
    + rewrite <-Hk. apply trailing_index_le.
Qed.

(** A sequence that does not end in [None] is left as it is. *)
Lemma remove_trailing_from_seq_fixed (seq : list pyval) :
  last seq ≠ Some PyNone → remove_trailing_from_seq PyNone seq = seq.
Proof.
  intros Hlast. unfold remove_trailing_from_seq.
  destruct seq as [|x0 seq0] using rev_ind; [done|].
  rewrite last_snoc in Hlast.
  rewrite length_app. simpl. replace (length seq0 + 1) with (S (length seq0)) by lia.
  simpl. rewrite lookup_app_r, Nat.sub_diag by done. simpl.
  rewrite py_eq_None. destruct (is_None x0) eqn:Hx.
  - apply is_None_true in Hx. congruence.
  - rewrite take_ge; [done|]. rewrite length_app. simpl. lia.
Qed.

(** No position of [pop_singlets seq] is a one-element list when the
    positions of [seq] are topic positions. *)
Lemma pop_singlets_fixed (seq : list pyval) :
  Forall (λ p, ∀ x, p ≠ PyList [x]) seq → pop_singlets seq = seq.
Proof.
  induction 1 as [|p seq Hp _ IH]; [done|].
  unfold pop_singlets in *. simpl. rewrite IH. f_equal.
  destruct p as [| | | | |[|x [|]]]; try done. by destruct (Hp x).
Qed.

Lemma pop_singlets_no_singlets (seq : list pyval) :
  Forall (λ p, topic_position p = true) seq →
  Forall (λ p, ∀ x, p ≠ PyList [x]) (pop_singlets seq).
Proof.
  induction 1 as [|p seq Hp _ IH]; [constructor|].
  unfold pop_singlets in *. simpl. constructor; [|done].
  destruct p as [| | | | |[|y [|]]]; try done.
  simpl in Hp. intros x ->. simpl in Hp. done.
Qed.

(** C8: [normalize_topic_list] unwraps every one-element list, position by
    position, and then drops exactly the trailing run of [None]: what is
    left is a prefix of the unwrapped sequence that does not end in [None],
    and what is dropped is [None] throughout.  So
    [normalize_topic_list((None, None, [None]))] is empty and
    [normalize_topic_list((a, [b], None, c, None, None))] is
    [(a, b, None, c)] for scalars [a] and [c]. *)
Theorem normalize_topic_list_spec :
  (∀ seq : list pyval,
     let unwrapped :=
       map (λ i, match i with PyList [x] => x | _ => i end) seq in
     (∃ k, unwrapped = normalize_topic_list seq ++ replicate k PyNone)
     ∧ last (normalize_topic_list seq) ≠ Some PyNone)
  ∧ normalize_topic_list [PyNone; PyNone; PyList [PyNone]] = []
  ∧ (∀ a b c : string,
       normalize_topic_list
         [PyStr a; PyList [PyStr b]; PyNone; PyStr c; PyNone; PyNone]
       = [PyStr a; PyStr b; PyNone; PyStr c]).
Proof.
  split; [|split].
  - intros seq unwrapped. split.
    + eexists. apply (remove_trailing_from_seq_split (pop_singlets seq)).
    + apply remove_trailing_from_seq_last.
  - reflexivity.
  - reflexivity.
Qed.

(** C9: on topic positions (wildcards, scalars, lists of these)
    [normalize_topic_list] is idempotent. *)
Theorem normalize_topic_list_idempotent (xs : list pyval) :
  Forall (λ p, topic_position p = true) xs →
  normalize_topic_list (normalize_topic_list xs) = normalize_topic_list xs.
Proof.
  intros Hxs. unfold normalize_topic_list at 1.
  rewrite pop_singlets_fixed.
  - apply remove_trailing_from_seq_fixed, remove_trailing_from_seq_last.
  - unfold normalize_topic_list, remove_trailing_from_seq.
    apply Forall_take, pop_singlets_no_singlets, Hxs.
Qed.

Lemma normalize_topic_list_idempotent_witness :
  normalize_topic_list
    (normalize_topic_list
       [PyNone; PyList [PyStr "0x2"; PyStr "0x2a"]; PyStr "0x3"; PyNone;
        PyStr "0x4"; PyNone; PyList [PyNone]; PyNone])
  = normalize_topic_list
      [PyNone; PyList [PyStr "0x2"; PyStr "0x2a"]; PyStr "0x3"; PyNone;
       PyStr "0x4"; PyNone; PyList [PyNone]; PyNone].
Proof.
  apply normalize_topic_list_idempotent.
  repeat constructor.
Defined.

(** A list nested in a one-element list is unwrapped once a pass, so outside
    the topic positions a second pass can change the result. *)
Example normalize_topic_list_nested :
  normalize_topic_list [PyList [PyList [PyStr "0x1"]]] = [PyList [PyStr "0x1"]]
  ∧ normalize_topic_list [PyList [PyStr "0x1"]] = [PyStr "0x1"].
Proof. split; reflexivity. Qed.

(** ** Hex rendering *)

Lemma hex_digit_inj (n m : N) :
  (n < 16)%N → (m < 16)%N → hex_digit n = hex_digit m → n = m.
Proof.
  intros Hn Hm.
  destruct n as [|p]; [|do 4 (try destruct p as [p|p|])]; try lia;
    (destruct m as [|q]; [|do 4 (try destruct q as [q|q|])]; try lia);
    simpl; first [reflexivity | discriminate].
Qed.

Lemma hexlify_inj (a b : bytes) : hexlify a = hexlify b → a = b.
Proof.
  revert b. induction a as [|x a IH]; intros [|y b]; simpl; try done.
  intros [= Hhi Hlo Hrest]. f_equal; [|by apply IH].
  pose proof (Byte.to_N_bounded x) as Hx.
  pose proof (Byte.to_N_bounded y) as Hy.
  apply hex_digit_inj in Hhi;
    [|apply N.Div0.div_lt_upper_bound; lia..].
  apply hex_digit_inj in Hlo; [|apply N.mod_lt; lia..].
  assert (Byte.to_N x = Byte.to_N y) as Heq.
  { rewrite (N.div_mod (Byte.to_N x) 16), (N.div_mod (Byte.to_N y) 16) by lia.
    congruence. }
  pose proof (Byte.of_to_N x) as Ex. pose proof (Byte.of_to_N y) as Ey.
  congruence.
Qed.

Lemma encode_hex_inj (a b : bytes) : encode_hex a = encode_hex b → a = b.
Proof. unfold encode_hex. intros [= Heq]. by apply hexlify_inj. Qed.

(** ** Comprehensions *)

Lemma for_each_Ok {A B} (f : A → result B) (l : list A) (ys : list B) :
  for_each f l = Ok ys ↔ Forall2 (λ x y, f x = Ok y) l ys.
Proof.
  revert ys. induction l as [|x l IH]; intros ys; simpl.
  - split; [intros [= <-]; constructor | by inversion 1].
  - split.
    + destruct (f x) as [y|e] eqn:Hy; simpl; [|done].
      destruct (for_each f l) as [zs|e] eqn:Hzs; simpl; [|done].
      intros [= <-]. constructor; [done|]. by apply IH.
    + inversion 1 as [|? y ? zs Hy Hzs]; subst.
      rewrite Hy. simpl. apply IH in Hzs. by rewrite Hzs.
Qed.

Lemma for_each_Raise {A B} (f : A → result B) (l : list A) (e : exn) :
  for_each f l = Raise e → ∃ x, x ∈ l ∧ f x = Raise e.
Proof.
  induction l as [|x l IH]; simpl; [done|].
  destruct (f x) as [y|e'] eqn:Hy; simpl.
  - destruct (for_each f l) as [zs|e'']; simpl; [done|].
    intros [= ->]. destruct IH as (z & Hz & Hfz); [done|].
    exists z. split; [by right | done].
  - intros [= ->]. exists x. split; [by left | done].
Qed.


(** ** Argument matcher *)

Section ArgumentFilterFacts.
Context `{Codec}.

Lemma match_single_Ok self value af' :
  match_single self value = Ok af' →
  ∃ encoded, _encode self value = Ok encoded
             ∧ af' = set_match_values self [value] [PyStr encoded].
Proof.
  unfold match_single, _normalize.
  destruct (_encode self value) as [encoded|e]; simpl; [|done].
  intros [= <-]. by exists encoded.
Qed.

Lemma match_any_Ok self values af' :
  match_any self values = Ok af' →
  ∃ encoded,
    Forall2 (λ v e, ∃ h, _encode self v = Ok h ∧ e = PyStr h) values encoded
    ∧ af' = set_match_values self values encoded.
Proof.
  unfold match_any, _normalize. rewrite map_id.
  destruct (for_each _ values) as [encoded|e] eqn:Hfe; simpl; [|done].
  intros [= <-]. exists encoded. split; [|done].
  apply for_each_Ok in Hfe. eapply Forall2_impl; [exact Hfe|].
  intros v e. simpl. destruct (_encode self v) as [h|]; simpl; [|done].
  intros [= <-]. by exists h.
Qed.

(** The declaration of a matcher never changes: its type, its indexed flag
    and the classification of its type computed at construction. *)
Lemma filter_reachable_declaration ty nm ix af :
  filter_reachable ty nm ix af →
  arg_type af = ty ∧ is_indexed af = ix
  ∧ is_dynamic_sized_type ty = Ok (is_dynamic af).
Proof.
  induction 1 as [af Hinit|af v af' _ IH Hs|af vs af' _ IH Ha].
  - unfold ArgumentFilter_init in Hinit.
    destruct (is_dynamic_sized_type ty) as [d|]; simpl in Hinit; [|done].
    by injection Hinit as <-.
  - apply match_single_Ok in Hs as (? & _ & ->). exact IH.
  - apply match_any_Ok in Ha as (? & _ & ->). exact IH.
Qed.

Lemma filter_reachable_lengths ty nm ix af :
  filter_reachable ty nm ix af →
  length (raw_match_values af) = length (encoded_match_values af).
Proof.
  induction 1 as [af Hinit|af v af' _ IH Hs|af vs af' _ IH Ha].
  - unfold ArgumentFilter_init in Hinit.
    destruct (is_dynamic_sized_type ty) as [d|]; simpl in Hinit; [|done].
    by injection Hinit as <-.
  - by apply match_single_Ok in Hs as (? & _ & ->).
  - apply match_any_Ok in Ha as (? & Hall & ->). simpl.
    by apply Forall2_length in Hall.
Qed.

Lemma encode_rule ty nm ix af v bs dyn :
  filter_reachable ty nm ix af →
  is_dynamic_sized_type ty = Ok dyn →
  encode_single ty v = Some bs →
  _encode af v = Ok (encoding_rule ix dyn bs).
Proof.
  intros Hr Hdyn Hbs.
  apply filter_reachable_declaration in Hr as (Hty & Hix & Hd).
  assert (is_dynamic af = dyn) as Hdd by congruence.
  unfold _encode, encoding_rule, to_hex. rewrite Hty, Hbs, Hix, Hdd. simpl.
  by destruct (ix && dyn).
Qed.

End ArgumentFilterFacts.

(** C7, as the code has it: in every state of a matcher the raw and the
    encoded match values have the same length; after construction both are
    the one wildcard; after [match_single(v)] they are [(v,)] and the
    encoding of [v]; after [match_any] they are the values passed, in order,
    and their encodings position by position, so their length is the number
    of values passed (none for a call with no values). *)
Theorem ArgumentFilter_match_values_aligned `{Codec} ty nm ix af :
  filter_reachable ty nm ix af →
  length (raw_match_values af) = length (encoded_match_values af)
  ∧ (∀ af0, ArgumentFilter_init ty nm ix = Ok af0 →
       raw_match_values af0 = [PyNone] ∧ encoded_match_values af0 = [PyNone])
  ∧ (∀ v af', match_single af v = Ok af' →
       raw_match_values af' = [v]
       ∧ ∃ h, _encode af v = Ok h ∧ encoded_match_values af' = [PyStr h])
  ∧ (∀ vs af', match_any af vs = Ok af' →
       raw_match_values af' = vs
       ∧ length (encoded_match_values af') = length vs
       ∧ Forall2 (λ v e, ∃ h, _encode af v = Ok h ∧ e = PyStr h)
           vs (encoded_match_values af')).
Proof.
  intros Hr. split; [by eapply filter_reachable_lengths|].
  split; [|split].
  - intros af0 Hinit. unfold ArgumentFilter_init in Hinit.
    destruct (is_dynamic_sized_type ty) as [d|]; simpl in Hinit; [|done].
    by injection Hinit as <-.
  - intros v af' Hs. apply match_single_Ok in Hs as (h & Hh & ->).
    split; [done|]. by exists h.
  - intros vs af' Ha. apply match_any_Ok in Ha as (encoded & Hall & ->).
    simpl. split; [done|]. split; [|done].
    symmetry. by apply Forall2_length in Hall.
Qed.

Lemma ArgumentFilter_match_values_aligned_witness :
  filter_reachable "string" "arg" true string_filter
  ∧ length (raw_match_values string_filter)
    = length (encoded_match_values string_filter).
Proof.
  assert (filter_reachable "string" "arg" true string_filter) as Hr.
  { apply reachable_init. reflexivity. }
  split; [exact Hr|].
  exact (proj1 (ArgumentFilter_match_values_aligned
                  "string" "arg" true string_filter Hr)).
Defined.

(** [match_any] with no values on a constructed matcher leaves both
    sequences empty: their length is not at least 1. *)
Lemma ArgumentFilter_match_any_no_values :
  ArgumentFilter_init "string" "arg" true = Ok string_filter
  ∧ match_any string_filter [] = Ok (set_match_values string_filter [] [])
  ∧ ¬ 1 ≤ length (raw_match_values (set_match_values string_filter [] []))
  ∧ ¬ 1 ≤ length (encoded_match_values (set_match_values string_filter [] [])).
Proof. repeat split; simpl; lia. Qed.

(** C2: a matcher declared with type [ty] and flag [ix] encodes an accepted
    value [v], by [match_single] and by [match_any] for each of its values,
    as the hex rendering of the Keccak-256 hash of the ABI encoding of [v]
    when [ix] holds and [ty] is dynamically sized, and as the hex rendering
    of the ABI encoding itself otherwise; the hashed rendering differs from
    the raw one wherever the hash differs from its input. *)
Theorem ArgumentFilter_encoding `{Codec} ty nm ix af dyn :
  filter_reachable ty nm ix af →
  is_dynamic_sized_type ty = Ok dyn →
  (∀ v bs, encode_single ty v = Some bs →
     (∃ af', match_single af v = Ok af'
             ∧ encoded_match_values af'
               = [PyStr (if ix && dyn then encode_hex (keccak bs)
                         else encode_hex bs)])
     ∧ (ix && dyn = true → keccak bs ≠ bs →
        ∀ af', match_single af v = Ok af' →
               encoded_match_values af' ≠ [PyStr (encode_hex bs)]))
  ∧ (∀ vs, Forall (λ v, is_Some (encode_single ty v)) vs →
       ∃ af', match_any af vs = Ok af')
  ∧ (∀ vs af', match_any af vs = Ok af' →
       Forall2 (λ v e, ∃ bs, encode_single ty v = Some bs
                  ∧ e = PyStr (if ix && dyn then encode_hex (keccak bs)
                               else encode_hex bs))
         vs (encoded_match_values af')).
Proof.
  intros Hr Hdyn.
  assert (∀ v bs, encode_single ty v = Some bs →
            _encode af v = Ok (encoding_rule ix dyn bs)) as Hrule.
  { intros v bs Hbs. by eapply encode_rule. }
  split; [|split].
  - intros v bs Hbs. specialize (Hrule v bs Hbs).
    assert (match_single af v
            = Ok (set_match_values af [v] [PyStr (encoding_rule ix dyn bs)]))
      as Hs.
    { unfold match_single, _normalize. by rewrite Hrule. }
    split.
    + eexists. split; [exact Hs|]. reflexivity.
    + intros Hid Hfix af' Hs'. rewrite Hs in Hs'. injection Hs' as <-.
      simpl. unfold encoding_rule. rewrite Hid. intros Heq.
      assert (encode_hex (keccak bs) = encode_hex bs) as Hhex by congruence.
      by apply encode_hex_inj in Hhex.
  - intros vs Hall. unfold match_any, _normalize. rewrite map_id.
    assert (∃ es, for_each (λ value, PyStr <$> _encode af value) vs = Ok es)
      as [es Hes].
    { induction Hall as [|v vs [bs Hbs] _ [es IH]]; simpl; [by eexists|].
      rewrite (Hrule v bs Hbs). simpl. rewrite IH. simpl. by eexists. }
    rewrite Hes. simpl. by eexists.
  - intros vs af' Ha. apply match_any_Ok in Ha as (encoded & Hall & ->).
    simpl. eapply Forall2_impl; [exact Hall|].
    intros v e (h & Hh & ->).
    apply filter_reachable_declaration in Hr as (Hty & Hix & Hd).
    unfold _encode in Hh. rewrite Hty in Hh.
    destruct (encode_single ty v) as [bs|] eqn:Hbs; simpl in Hh; [|done].
    exists bs. split; [done|].
    assert (is_dynamic af = dyn) as Hdd by congruence.
    rewrite Hix, Hdd in Hh. unfold to_hex in Hh.
    destruct (ix && dyn); by injection Hh as <-.
Qed.

Lemma ArgumentFilter_encoding_witness :
  filter_reachable "string" "arg" true string_filter
  ∧ is_dynamic_sized_type "string" = Ok true
  ∧ ∃ af', match_single string_filter (PyStr "pizza") = Ok af'
           ∧ encoded_match_values af'
             = [PyStr (encode_hex (keccak (String.list_byte_of_string "pizza")))].
Proof.
  assert (filter_reachable "string" "arg" true string_filter) as Hr.
  { apply reachable_init. reflexivity. }
  split; [exact Hr|]. split; [reflexivity|].
  exact (proj1 (proj1 (ArgumentFilter_encoding
                         "string" "arg" true string_filter true Hr eq_refl)
                  (PyStr "pizza") (String.list_byte_of_string "pizza") eq_refl)).
Defined.

(** ** Log decoder *)

Section DecoderFacts.
Context `{Codec}.

Lemma primitive_Raise {A} (nm : string) (o : option A) (e : exn) :
  primitive nm o = Raise e → e = CodecError nm.
Proof. destruct o; simpl; congruence. Qed.

Lemma is_dynamic_sized_type_Raise ty e :
  is_dynamic_sized_type ty = Raise e → e = CodecError "process_type".
Proof.
  unfold is_dynamic_sized_type.
  destruct (process_type ty) as [[[base size] arrlist]|]; simpl.
  - repeat case_match; done.
  - congruence.
Qed.

Lemma get_event_abi_types_for_decoding_Raise event_inputs e :
  get_event_abi_types_for_decoding event_inputs = Raise e →
  e = CodecError "process_type".
Proof.
  intros Hr. apply for_each_Raise in Hr as (input_abi & _ & Hr).
  destruct (indexed input_abi); [|done].
  destruct (is_dynamic_sized_type (type input_abi)) eqn:Hd; simpl in Hr;
    [done|].
  injection Hr as <-. by eapply is_dynamic_sized_type_Raise.
Qed.

(** The exceptions of the decoder after its first statement: those of the
    steps before the name check, the name check, and the two decoding
    primitives. *)
Lemma decode_event_data_Raise event_abi log_entry log_topics e :
  decode_event_data event_abi log_entry log_topics = Raise e →
  e = CodecError "process_type"
  ∨ (∃ n m, e = ValueError_topic_count n m)
  ∨ e = CodecError "to_bytes"
  ∨ (∃ names, e = ValueError_duplicate_names names)
  ∨ e = CodecError "decode_abi"
  ∨ e = CodecError "decode_single".
Proof.
  unfold decode_event_data.
  destruct (get_event_abi_types_for_decoding
              (normalize_event_input_types (get_indexed_event_inputs event_abi)))
    as [topic_types|e1] eqn:Ht; simpl.
  2:{ intros [= <-]. left. by eapply get_event_abi_types_for_decoding_Raise. }
  case_bool_decide; [intros [= <-]; right; left; eauto|].
  destruct (primitive "to_bytes" _) as [log_data|e2] eqn:Hb; simpl.
  2:{ intros [= <-]. apply primitive_Raise in Hb. auto. }
  destruct (get_event_abi_types_for_decoding
              (normalize_event_input_types (exclude_indexed_event_inputs event_abi)))
    as [data_types|e3] eqn:Hd; simpl.
  2:{ intros [= <-]. left. by eapply get_event_abi_types_for_decoding_Raise. }
  case_bool_decide; [intros [= <-]; do 3 right; left; eauto|].
  destruct (primitive "decode_abi" _) as [decoded|e4] eqn:Hda; simpl.
  2:{ intros [= <-]. apply primitive_Raise in Hda. auto 10. }
  destruct (for_each _ (zip topic_types log_topics)) as [topic_data|e5] eqn:Hds;
    simpl; [done|].
  intros [= <-]. apply for_each_Raise in Hds as ([ty td] & _ & Hds).
  apply primitive_Raise in Hds. auto 10.
Qed.

(** With a name on both sides of the indexed split the decoder never gets
    past the name check. *)
Lemma decode_event_data_duplicate_names event_abi log_entry log_topics :
  let duplicate_names : gset string :=
    list_to_set (get_abi_input_names (get_indexed_event_inputs event_abi))
    ∩ list_to_set (get_abi_input_names (exclude_indexed_event_inputs event_abi)) in
  duplicate_names ≠ ∅ →
  ∃ e, decode_event_data event_abi log_entry log_topics = Raise e
       ∧ (e = CodecError "process_type"
          ∨ (∃ n m, e = ValueError_topic_count n m)
          ∨ e = CodecError "to_bytes"
          ∨ e = ValueError_duplicate_names (elements duplicate_names)).
Proof.
  intros duplicate_names Hdup. unfold decode_event_data.
  destruct (get_event_abi_types_for_decoding
              (normalize_event_input_types (get_indexed_event_inputs event_abi)))
    as [topic_types|e1] eqn:Ht; simpl.
  2:{ eexists. split; [done|]. left.
      by eapply get_event_abi_types_for_decoding_Raise. }
  case_bool_decide; [eexists; split; [done|]; right; left; eauto|].
  destruct (primitive "to_bytes" _) as [log_data|e2] eqn:Hb; simpl.
  2:{ eexists. split; [done|]. apply primitive_Raise in Hb. auto. }
  destruct (get_event_abi_types_for_decoding
              (normalize_event_input_types (exclude_indexed_event_inputs event_abi)))
    as [data_types|e3] eqn:Hd; simpl.
  2:{ eexists. split; [done|]. left.
      by eapply get_event_abi_types_for_decoding_Raise. }
  fold duplicate_names. rewrite bool_decide_eq_true_2 by done.
  eexists. split; [done|]. auto.
Qed.

End DecoderFacts.

(** C3: for a non-anonymous descriptor [get_event_data] raises
    [MismatchedABI] exactly when the log entry has no topic or its first
    topic is not the signature hash of the descriptor; otherwise the topics
    of the indexed arguments are [topics[1:]].  For an anonymous descriptor
    they are all of [topics], and [MismatchedABI] is never raised. *)
Theorem get_event_data_MismatchedABI `{Codec} event_abi log_entry :
  (anonymous event_abi = false →
     ((∃ msg, get_event_data event_abi log_entry = Raise (MismatchedABI msg))
      ↔ (topics log_entry = []
         ∨ ∃ topic0, head (topics log_entry) = Some topic0
                     ∧ topic0 ≠ event_abi_to_log_topic event_abi))
     ∧ ((∀ msg, get_event_data event_abi log_entry ≠ Raise (MismatchedABI msg)) →
        get_log_topics event_abi log_entry = Ok (drop 1 (topics log_entry))
        ∧ get_event_data event_abi log_entry
          = decode_event_data event_abi log_entry (drop 1 (topics log_entry))))
  ∧ (anonymous event_abi = true →
     get_log_topics event_abi log_entry = Ok (topics log_entry)
     ∧ get_event_data event_abi log_entry
       = decode_event_data event_abi log_entry (topics log_entry)
     ∧ ∀ msg, get_event_data event_abi log_entry ≠ Raise (MismatchedABI msg)).
Proof.
  assert (∀ log_topics msg,
            decode_event_data event_abi log_entry log_topics
            ≠ Raise (MismatchedABI msg)) as Hdecode.
  { intros log_topics msg Hr. apply decode_event_data_Raise in Hr.
    decompose [or ex] Hr; discriminate. }
  unfold get_event_data, get_log_topics. split; intros ->.
  - destruct (topics log_entry) as [|topic0 rest]; simpl.
    + split; [|intros Hno; by destruct (Hno _ eq_refl)].
      split; [auto | eauto].
    + case_bool_decide as Hsig; simpl.
      * split; [|intros Hno; by destruct (Hno _ eq_refl)].
        split; [|eauto]. intros _. right. exists topic0. split; [done|].
        congruence.
      * rewrite drop_0. split; [|done]. split.
        -- intros [msg Hr]. by destruct (Hdecode rest msg).
        -- intros [|(t & [= <-] & Hne)]; [done|].
           destruct Hsig. congruence.
  - simpl. split; [done|]. split; [done|]. intros msg. apply Hdecode.
Qed.

(** C6, as the code has it: with a name on both sides of the indexed split
    [get_event_data] returns no event, whatever the log entry.  The steps
    before the name check run in this order: the topic checks of the first
    statement, the decode types of the indexed inputs, the topic count, the
    conversion of the data to bytes, the decode types of the other inputs.
    The decoder raises the exception of the first of them that fails, and
    the duplicate-name error once all of them pass; nothing is decoded
    before. *)
Theorem get_event_data_duplicate_names `{Codec} event_abi log_entry :
  let topic_names := get_abi_input_names (get_indexed_event_inputs event_abi) in
  let data_names := get_abi_input_names (exclude_indexed_event_inputs event_abi) in
  let duplicate_names : gset string :=
    list_to_set topic_names ∩ list_to_set data_names in
  (∃ n, n ∈ topic_names ∧ n ∈ data_names) →
  (∀ event_data, get_event_data event_abi log_entry ≠ Ok event_data)
  ∧ (∀ log_topics topic_types data_types log_data,
       get_log_topics event_abi log_entry = Ok log_topics →
       get_event_abi_types_for_decoding
         (normalize_event_input_types (get_indexed_event_inputs event_abi))
       = Ok topic_types →
       length log_topics = length topic_types →
       hexstr_if_str_to_bytes (data log_entry) = Some log_data →
       get_event_abi_types_for_decoding
         (normalize_event_input_types (exclude_indexed_event_inputs event_abi))
       = Ok data_types →
       get_event_data event_abi log_entry
       = Raise (ValueError_duplicate_names (elements duplicate_names)))
  ∧ (∀ e, get_event_data event_abi log_entry = Raise e →
       (∃ msg, e = MismatchedABI msg)
       ∨ e = CodecError "process_type"
       ∨ (∃ n m, e = ValueError_topic_count n m)
       ∨ e = CodecError "to_bytes"
       ∨ e = ValueError_duplicate_names (elements duplicate_names))
  ∧ (∀ e, get_log_topics event_abi log_entry = Raise e →
          get_event_data event_abi log_entry = Raise e)
  ∧ (∀ log_topics,
       get_log_topics event_abi log_entry = Ok log_topics →
       (∀ e, get_event_abi_types_for_decoding
               (normalize_event_input_types
                  (get_indexed_event_inputs event_abi)) = Raise e →
             get_event_data event_abi log_entry = Raise e)
       ∧ (∀ topic_types,
            get_event_abi_types_for_decoding
              (normalize_event_input_types
                 (get_indexed_event_inputs event_abi)) = Ok topic_types →
            (length log_topics ≠ length topic_types →
             get_event_data event_abi log_entry
             = Raise (ValueError_topic_count (length topic_types)
                        (length log_topics)))
            ∧ (length log_topics = length topic_types →
               (hexstr_if_str_to_bytes (data log_entry) = None →
                get_event_data event_abi log_entry
                = Raise (CodecError "to_bytes"))
               ∧ (∀ log_data e,
                    hexstr_if_str_to_bytes (data log_entry) = Some log_data →
                    get_event_abi_types_for_decoding
                      (normalize_event_input_types
                         (exclude_indexed_event_inputs event_abi)) = Raise e →
                    get_event_data event_abi log_entry = Raise e)))).
Proof.
  intros topic_names data_names duplicate_names (n & Hn1 & Hn2).
  assert (duplicate_names ≠ ∅) as Hdup.
  { assert (n ∈ duplicate_names) as Hin.
    { apply elem_of_intersection. split; by apply elem_of_list_to_set. }
    intros Hempty. rewrite Hempty in Hin. by apply not_elem_of_empty in Hin. }
  pose proof (λ log_topics,
    decode_event_data_duplicate_names event_abi log_entry log_topics Hdup)
    as Hdecode.
  fold duplicate_names in Hdecode.
  split; [|split; [|split; [|split]]].
  - intros event_data. unfold get_event_data.
    destruct (get_log_topics event_abi log_entry) as [lt|e]; simpl; [|done].
    destruct (Hdecode lt) as (e & -> & _). done.
  - intros lt tt dt ld Hlt Htt Hlen Hld Hdt. unfold get_event_data.
    rewrite Hlt. simpl. unfold decode_event_data. rewrite Htt. simpl.
    rewrite bool_decide_eq_false_2 by (intros Hne; by apply Hne).
    rewrite Hld. simpl. rewrite Hdt. simpl.
    fold topic_names data_names duplicate_names.
    by rewrite bool_decide_eq_true_2.
  - intros e. unfold get_event_data, get_log_topics.
    destruct (anonymous event_abi).
    + simpl. destruct (Hdecode (topics log_entry)) as (e' & -> & He').
      intros [= <-]. decompose [or ex] He'; eauto 10.
    + destruct (topics log_entry) as [|topic0 rest]; simpl.
      { intros [= <-]. eauto. }
      case_bool_decide; simpl.
      { intros [= <-]. eauto. }
      destruct (Hdecode rest) as (e' & -> & He').
      intros [= <-]. decompose [or ex] He'; eauto 10.
  - intros e Hlt. unfold get_event_data. by rewrite Hlt.
  - intros lt Hlt. unfold get_event_data. rewrite Hlt. simpl.
    unfold decode_event_data. split.
    + intros e Htt. by rewrite Htt.
    + intros tt Htt. rewrite Htt. simpl. split.
      * intros Hlen. by rewrite bool_decide_eq_true_2.
      * intros Hlen.
        rewrite bool_decide_eq_false_2 by (intros Hne; by apply Hne).
        split.
        -- intros Hld. by rewrite Hld.
        -- intros ld e Hld Hdt. rewrite Hld. simpl. by rewrite Hdt.
Qed.

Lemma get_event_data_duplicate_names_witness :
  (∃ n, n ∈ get_abi_input_names (get_indexed_event_inputs duplicate_abi)
        ∧ n ∈ get_abi_input_names (exclude_indexed_event_inputs duplicate_abi))
  ∧ ∀ event_data,
      get_event_data duplicate_abi
        (log_with_topics [event_abi_to_log_topic duplicate_abi; []])
      ≠ Ok event_data.
Proof.
  assert (∃ n, n ∈ get_abi_input_names (get_indexed_event_inputs duplicate_abi)
               ∧ n ∈ get_abi_input_names
                       (exclude_indexed_event_inputs duplicate_abi)) as Hdup.
  { exists "x". split; vm_compute; left. }
  split; [exact Hdup|].
  exact (proj1 (get_event_data_duplicate_names duplicate_abi
                  (log_with_topics [event_abi_to_log_topic duplicate_abi; []])
                  Hdup)).
Defined.

(** For a descriptor with a duplicated name and a log entry without topics
    the decoder raises [MismatchedABI]: the duplicate-name error is not the
    first check. *)
Lemma get_event_data_duplicate_names_not_first :
  (∃ n, n ∈ get_abi_input_names (get_indexed_event_inputs duplicate_abi)
        ∧ n ∈ get_abi_input_names (exclude_indexed_event_inputs duplicate_abi))
  ∧ get_event_data duplicate_abi (log_with_topics [])
    = Raise (MismatchedABI
               "Expected non-anonymous event to have 1 or more topics")
  ∧ ¬ ∃ names, get_event_data duplicate_abi (log_with_topics [])
               = Raise (ValueError_duplicate_names names).
Proof.
  split; [|split].
  - exists "x". split; vm_compute; left.
  - reflexivity.
  - intros [names Hr]. discriminate Hr.
Qed.

(** ** Exhaustive combination builder *)

Section CombinationFacts.
Context `{Codec}.

(** The options of the inputs [abi_args] are read off the arguments at the
    names of [abi_args] and nowhere else. *)
Lemma zip_abi_and_args_agree (args1 args2 : gmap string pyval)
    (abi_args : list InputParameter) :
  (∀ arg, arg ∈ abi_args → args1 !! name arg = args2 !! name arg) →
  zip_abi_and_args (normalized_arg <$> args1) abi_args
  = zip_abi_and_args (normalized_arg <$> args2) abi_args.
Proof.
  intros Hagree. unfold zip_abi_and_args.
  apply list_eq. intros i. rewrite !list_lookup_fmap.
  destruct (abi_args !! i) as [arg|] eqn:Hi; simpl; [|done].
  rewrite !lookup_fmap, Hagree; [done|].
  by eapply list_elem_of_lookup_2.
Qed.

(** What [encode_args] puts at every option: [None] for [None], and the hex
    rendering of the ABI encoding for any other value, whatever the type. *)
Lemma encode_args_Ok zipped encoded_args :
  encode_args zipped = Ok encoded_args →
  Forall2 (λ '(arg, arg_options) encoded_options,
    Forall2 (λ option encoded,
      (option = PyNone ∧ encoded = PyNone)
      ∨ ∃ bs, option ≠ PyNone
              ∧ encode_single (type arg) option = Some bs
              ∧ encoded = PyStr (encode_hex bs))
      arg_options encoded_options)
    zipped encoded_args.
Proof.
  intros Henc. apply for_each_Ok in Henc.
  eapply Forall2_impl; [exact Henc|].
  intros [arg arg_options] encoded_options Hopts. simpl in Hopts.
  apply for_each_Ok in Hopts. eapply Forall2_impl; [exact Hopts|].
  intros option encoded. simpl.
  destruct (is_None option) eqn:Hnone.
  - apply is_None_true in Hnone. intros [= <-]. by left.
  - destruct (encode_single (type arg) option) as [bs|]; simpl; [|done].
    intros [= <-]. right. exists bs. split; [|done].
    intros ->. discriminate.
Qed.

End CombinationFacts.

(** C10: with arguments given as a mapping, the topic set depends only on the
    entries at the names of indexed parameters and the data set only on the
    entries at the names of non-indexed parameters. *)
Theorem construct_event_sets_depend_on_partition `{Codec} event_abi
    (args1 args2 : gmap string pyval) :
  ((∀ arg, arg ∈ get_indexed_event_inputs event_abi →
           args1 !! name arg = args2 !! name arg) →
   construct_event_topic_set event_abi (ArgsDict args1)
   = construct_event_topic_set event_abi (ArgsDict args2))
  ∧ ((∀ arg, arg ∈ exclude_indexed_event_inputs event_abi →
             args1 !! name arg = args2 !! name arg) →
     construct_event_data_set event_abi (ArgsDict args1)
     = construct_event_data_set event_abi (ArgsDict args2)).
Proof.
  split; intros Hagree.
  - unfold construct_event_topic_set. simpl.
    by rewrite (zip_abi_and_args_agree args1 args2).
  - unfold construct_event_data_set. simpl.
    by rewrite (zip_abi_and_args_agree args1 args2).
Qed.

Lemma construct_event_sets_depend_on_partition_witness :
  construct_event_topic_set string_event_abi
    (ArgsDict {[ "s" := PyStr "pizza"; "n" := PyInt 1 ]})
  = construct_event_topic_set string_event_abi
      (ArgsDict {[ "s" := PyStr "pizza"; "n" := PyInt 2; "other" := PyNone ]})
  ∧ construct_event_data_set string_event_abi
      (ArgsDict {[ "s" := PyStr "pizza"; "n" := PyInt 1 ]})
    = construct_event_data_set string_event_abi
        (ArgsDict {[ "s" := PyStr "pancake"; "n" := PyInt 1; "other" := PyNone ]}).
Proof.
  split.
  - apply (proj1 (construct_event_sets_depend_on_partition string_event_abi
                    {[ "s" := PyStr "pizza"; "n" := PyInt 1 ]}
                    {[ "s" := PyStr "pizza"; "n" := PyInt 2; "other" := PyNone ]})).
    intros arg Harg. apply list_elem_of_In in Harg.
    destruct Harg as [<-|[]]. reflexivity.
  - apply (proj2 (construct_event_sets_depend_on_partition string_event_abi
                    {[ "s" := PyStr "pizza"; "n" := PyInt 1 ]}
                    {[ "s" := PyStr "pancake"; "n" := PyInt 1; "other" := PyNone ]})).
    intros arg Harg. apply list_elem_of_In in Harg.
    destruct Harg as [<-|[]]. reflexivity.
Defined.

(** C1, at a descriptor with an indexed [string] parameter:
    [construct_event_topic_set] renders the ABI encoding of the value itself
    where the argument matcher, for the same type and value, renders its
    Keccak-256 hash; the two differ wherever the hash differs from its
    input. *)
Theorem construct_event_topic_set_does_not_hash `{Codec} (bs : bytes) :
  is_dynamic_sized_type "string" = Ok true →
  encode_single "string" (PyStr "pizza") = Some bs →
  construct_event_topic_set string_event_abi
    (ArgsDict {[ "s" := PyStr "pizza" ]})
  = Ok [[PyStr (encode_hex (event_abi_to_log_topic string_event_abi));
         PyStr (encode_hex bs)]]
  ∧ (∃ af, ArgumentFilter_init "string" "s" true = Ok af
           ∧ encoded_match_values <$> match_single af (PyStr "pizza")
             = Ok [PyStr (encode_hex (keccak bs))])
  ∧ (keccak bs ≠ bs →
     construct_event_topic_set string_event_abi
       (ArgsDict {[ "s" := PyStr "pizza" ]})
     ≠ Ok [[PyStr (encode_hex (event_abi_to_log_topic string_event_abi));
            PyStr (encode_hex (keccak bs))]]).
Proof.
  intros Hdyn Hbs.
  assert (construct_event_topic_set string_event_abi
            (ArgsDict {[ "s" := PyStr "pizza" ]})
          = Ok [[PyStr (encode_hex (event_abi_to_log_topic string_event_abi));
                 PyStr (encode_hex bs)]]) as Heval.
  { unfold construct_event_topic_set. simpl.
    unfold encode_args, zip_abi_and_args, get_indexed_event_inputs. simpl.
    rewrite lookup_fmap, lookup_singleton_eq. simpl. rewrite Hbs. reflexivity. }
  split; [exact Heval|]. split.
  - unfold ArgumentFilter_init. rewrite Hdyn. simpl. eexists. split; [done|].
    unfold match_single, _encode, _normalize. simpl. rewrite Hbs. reflexivity.
  - intros Hfix. rewrite Heval. intros Heq.
    assert (encode_hex bs = encode_hex (keccak bs)) as Hhex by congruence.
    apply encode_hex_inj in Hhex. congruence.
Qed.

Lemma construct_event_topic_set_does_not_hash_witness :
  is_dynamic_sized_type "string" = Ok true
  ∧ construct_event_topic_set string_event_abi
      (ArgsDict {[ "s" := PyStr "pizza" ]})
    = Ok [[PyStr (encode_hex (event_abi_to_log_topic string_event_abi));
           PyStr (encode_hex (String.list_byte_of_string "pizza"))]].
Proof.
  split; [reflexivity|].
  exact (proj1 (construct_event_topic_set_does_not_hash
                  (String.list_byte_of_string "pizza") eq_refl eq_refl)).
Defined.

(** ** Filter topic builder *)

Section BuilderFacts.
Context `{Codec}.

Lemma length_dict_replace key af d :
  length (dict_replace key af d) = length d.
Proof. apply length_map. Qed.

(** The signature topic and the sizes of the three dicts are those of the
    constructed builder. *)
Lemma builder_reachable_shape abi b :
  builder_reachable abi b →
  ∃ b0, EventFilterBuilder_init abi = Ok b0
        ∧ event_topic b = event_topic b0
        ∧ length (indexed_args b) = length (indexed_args b0)
        ∧ length (data_args b) = length (data_args b0).
Proof.
  induction 1 as [b Hinit|b key value _ (b0 & Hinit & Ht & Hi & Hd)
                 |b key values _ (b0 & Hinit & Ht & Hi & Hd)].
  - by exists b.
  - exists b0. split; [done|]. unfold builder_match_single.
    destruct (dict_get (args b) key) as [af|]; [|done].
    destruct (match_single af value); [|done].
    simpl. by rewrite !length_dict_replace.
  - exists b0. split; [done|]. unfold builder_match_any.
    destruct (dict_get (args b) key) as [af|]; [|done].
    destruct (match_any af values); [|done].
    simpl. by rewrite !length_dict_replace.
Qed.

Lemma trailing_index_cons_str h seq n :
  trailing_index PyNone (PyStr h :: seq) (S n)
  = S (trailing_index PyNone seq n).
Proof.
  induction n as [|n IH]; [done|].
  change (trailing_index PyNone (PyStr h :: seq) (S (S n)))
    with (match seq !! n with
          | Some x => if py_eq x PyNone
                      then trailing_index PyNone (PyStr h :: seq) (S n)
                      else S (S n)
          | None => S (S n)
          end).
  rewrite IH. simpl. destruct (seq !! n) as [x|]; [|done].
  by destruct (py_eq x PyNone).
Qed.

(** A string at position 0 is neither unwrapped nor trimmed. *)
Lemma normalize_topic_list_cons_str h seq :
  normalize_topic_list (PyStr h :: seq) = PyStr h :: normalize_topic_list seq.
Proof.
  unfold normalize_topic_list, remove_trailing_from_seq.
  change (pop_singlets (PyStr h :: seq)) with (PyStr h :: pop_singlets seq).
  change (length (PyStr h :: pop_singlets seq))
    with (S (length (pop_singlets seq))).
  by rewrite trailing_index_cons_str.
Qed.

Lemma for_each_dict_values d :
  for_each (λ arg, PyList <$> get_encoded_match_values arg) (dict_values d)
  = Ok (map (λ kv, PyList (encoded_match_values kv.2)) d).
Proof.
  induction d as [|kv d IH]; [done|].
  unfold dict_values in *. cbn [map for_each]. by rewrite IH.
Qed.

(** [topics] is the rendering of the event topic followed by the normalised
    positions of the indexed arguments. *)
Lemma builder_topics_eq b :
  builder_topics b
  = (h ← to_hex_event_topic (event_topic b);
     Ok (PyStr h :: normalize_topic_list (arg_topics b))).
Proof.
  unfold builder_topics. rewrite for_each_dict_values. simpl.
  destruct (to_hex_event_topic (event_topic b)) as [h|]; simpl; [|done].
  by rewrite normalize_topic_list_cons_str.
Qed.

Lemma length_normalize_topic_list seq :
  length (normalize_topic_list seq) ≤ length seq.
Proof.
  unfold normalize_topic_list, remove_trailing_from_seq.
  rewrite length_take, length_pop_singlets. lia.
Qed.

(** The matchers [_init_argument_filters] creates, one an input and in
    order, before [to_dict] collects them by name. *)
Lemma init_argument_filters_pairs (items : list InputParameter) pairs :
  for_each (λ item,
      let key := name item in
      value ← ArgumentFilter_init (type item) (name item) (indexed item);
      Ok (key, value)) items = Ok pairs →
  Forall2 (λ (item : InputParameter) (kv : string * ArgumentFilter),
             kv.1 = name item ∧ is_indexed kv.2 = indexed item)
    items pairs.
Proof.
  intros Hfe. apply for_each_Ok in Hfe. eapply Forall2_impl; [exact Hfe|].
  intros item [k v]. simpl. unfold ArgumentFilter_init.
  destruct (is_dynamic_sized_type (type item)); simpl; [|done].
  by intros [= <- <-].
Qed.

(** Assigning one matcher adds at most one indexed matcher to a dict. *)
Lemma dict_set_indexed_count (d : list (string * ArgumentFilter)) k v :
  length (valfilter is_indexed_arg (dict_set d k v))
  ≤ length (valfilter is_indexed_arg d) + (if is_indexed v then 1 else 0).
Proof.
  unfold valfilter, is_indexed_arg.
  induction d as [|[k' v'] d IH]; simpl.
  - rewrite filter_cons. simpl. destruct (is_indexed v); simpl; lia.
  - destruct (decide (k' = k)) as [->|Hne].
    + rewrite !filter_cons. simpl.
      destruct (is_indexed v), (is_indexed v'); simpl; lia.
    + rewrite !filter_cons. simpl.
      destruct (is_indexed v'); simpl; lia.
Qed.

Lemma to_dict_indexed_count (pairs d : list (string * ArgumentFilter)) :
  length (valfilter is_indexed_arg
            (foldl (λ d kv, dict_set d kv.1 kv.2) d pairs))
  ≤ length (valfilter is_indexed_arg d)
    + length (filter (λ kv, is_indexed kv.2 = true) pairs).
Proof.
  revert d. induction pairs as [|[k v] pairs IH]; intros d; simpl; [lia|].
  etrans; [apply IH|]. pose proof (dict_set_indexed_count d k v) as Hset.
  rewrite filter_cons. simpl. destruct (is_indexed v); simpl in *; lia.
Qed.

Lemma indexed_pairs_count (items : list InputParameter)
    (pairs : list (string * ArgumentFilter)) :
  Forall2 (λ (item : InputParameter) (kv : string * ArgumentFilter),
             kv.1 = name item ∧ is_indexed kv.2 = indexed item)
    items pairs →
  length (filter (λ kv, is_indexed kv.2 = true) pairs)
  = length (filter (λ arg, indexed arg = true) items).
Proof.
  induction 1 as [|item kv items pairs [_ Hix] _ IH]; [done|].
  rewrite !filter_cons. rewrite Hix.
  destruct (indexed item); simpl; by rewrite IH.
Qed.

(** The constructed builder. *)
Lemma EventFilterBuilder_init_Ok abi b :
  EventFilterBuilder_init abi = Ok b →
  ∃ pairs,
    Forall2 (λ (item : InputParameter) (kv : string * ArgumentFilter),
               kv.1 = name item ∧ is_indexed kv.2 = indexed item)
      (inputs abi) pairs
    ∧ event_topic b = _initial_event_topic abi
    ∧ indexed_args b = valfilter is_indexed_arg (to_dict pairs)
    ∧ data_args b = valfilter not_indexed (to_dict pairs).
Proof.
  unfold EventFilterBuilder_init, _init_argument_filters.
  destruct (for_each _ (inputs abi)) as [pairs|] eqn:Hfe; simpl; [|done].
  intros [= <-]. exists pairs. split; [|done].
  by apply init_argument_filters_pairs.
Qed.

(** A dict keeps its keys under assignment, and its entries are the old
    ones or the one assigned. *)
Lemma dict_set_keys {A} (d : list (string * A)) k v k' :
  k' = k ∨ k' ∈ d.*1 → k' ∈ (dict_set d k v).*1.
Proof.
  induction d as [|[k0 v0] d IH]; simpl.
  - intros [->|Hin]; [left | by apply elem_of_nil in Hin].
  - destruct (decide (k0 = k)) as [->|Hne]; simpl.
    + intros [->|Hin]; [left|]. apply elem_of_cons in Hin as [->|Hin];
        [left | by right].
    + intros [->|Hin].
      * right. apply IH. by left.
      * apply elem_of_cons in Hin as [->|Hin]; [left|].
        right. apply IH. by right.
Qed.

Lemma dict_set_entries {A} (d : list (string * A)) k v kv :
  kv ∈ dict_set d k v → kv = (k, v) ∨ kv ∈ d.
Proof.
  induction d as [|[k0 v0] d IH]; simpl.
  - intros Hin. apply list_elem_of_singleton in Hin. by left.
  - destruct (decide (k0 = k)) as [->|Hne].
    + intros Hin. apply elem_of_cons in Hin as [->|Hin]; [by left|].
      right. by right.
    + intros Hin. apply elem_of_cons in Hin as [->|Hin]; [right; left|].
      destruct (IH Hin) as [->|Hd]; [by left|]. right. by right.
Qed.

Lemma to_dict_keys {A} (pairs d : list (string * A)) k :
  k ∈ d.*1 ∨ k ∈ pairs.*1 →
  k ∈ (foldl (λ d kv, dict_set d kv.1 kv.2) d pairs).*1.
Proof.
  revert d. induction pairs as [|[k0 v0] pairs IH]; intros d; simpl.
  - intros [Hin|Hin]; [done | by apply elem_of_nil in Hin].
  - intros Hin. apply IH.
    destruct Hin as [Hin|Hin].
    + left. apply dict_set_keys. by right.
    + apply elem_of_cons in Hin as [->|Hin]; [|by right].
      left. apply dict_set_keys. by left.
Qed.

Lemma to_dict_entries {A} (pairs d : list (string * A)) kv :
  kv ∈ foldl (λ d kv, dict_set d kv.1 kv.2) d pairs → kv ∈ d ∨ kv ∈ pairs.
Proof.
  revert d. induction pairs as [|[k0 v0] pairs IH]; intros d; simpl.
  - by left.
  - intros Hin. destruct (IH _ Hin) as [Hd|Hp]; [|right; by right].
    apply dict_set_entries in Hd as [->|Hd]; [right; left | by left].
Qed.

(** A name whose every declaration is non-indexed keeps a matcher in
    [data_args]. *)
Lemma data_args_nonempty abi b (item : InputParameter) :
  EventFilterBuilder_init abi = Ok b →
  item ∈ inputs abi →
  (∀ item', item' ∈ inputs abi → name item' = name item →
            indexed item' = false) →
  data_args b ≠ [].
Proof.
  intros Hinit Hitem Hnon.
  apply EventFilterBuilder_init_Ok in Hinit as (pairs & Hpairs & _ & _ & ->).
  assert (name item ∈ pairs.*1) as Hkey.
  { apply list_elem_of_lookup in Hitem as [i Hi].
    destruct (Forall2_lookup_l _ _ _ _ _ Hpairs Hi) as (kv & Hkv & Hk & _).
    rewrite <-Hk. apply list_elem_of_fmap. exists kv. split; [done|].
    by eapply list_elem_of_lookup_2. }
  assert (name item ∈ (to_dict pairs).*1) as Hd.
  { apply to_dict_keys. by right. }
  apply list_elem_of_fmap in Hd as ([k v] & Hk & Hin). simpl in Hk. subst k.
  assert ((name item, v) ∈ pairs) as Hp.
  { apply to_dict_entries in Hin as [Hnil|Hp]; [|done].
    by apply elem_of_nil in Hnil. }
  apply list_elem_of_lookup in Hp as [i Hi].
  destruct (Forall2_lookup_r _ _ _ _ _ Hpairs Hi) as (item' & Hi' & Hk & Hix).
  simpl in Hk, Hix.
  assert (is_indexed v = false) as Hv.
  { rewrite Hix. apply Hnon; [by eapply list_elem_of_lookup_2 | done]. }
  intros Hempty.
  assert ((name item, v) ∈ valfilter not_indexed (to_dict pairs)) as Hf.
  { apply list_elem_of_filter. split; [|done].
    unfold not_indexed, is_indexed_arg. simpl. by rewrite Hv. }
  rewrite Hempty in Hf. by apply elem_of_nil in Hf.
Qed.

End BuilderFacts.

(** For a non-anonymous descriptor [topics] is the signature topic followed
    by the normalised positions of the indexed arguments, at most one
    position more than the descriptor has indexed inputs. *)
Lemma builder_topics_named `{Codec} abi b :
  builder_reachable abi b → anonymous abi = false →
  builder_topics b
  = Ok (PyStr (to_hex (event_abi_to_log_topic abi))
          :: normalize_topic_list (arg_topics b))
  ∧ length (normalize_topic_list (arg_topics b))
    ≤ length (get_indexed_event_inputs abi).
Proof.
  intros Hr Hanon.
  apply builder_reachable_shape in Hr as (b0 & Hinit & Ht & Hi & _).
  apply EventFilterBuilder_init_Ok in Hinit as (pairs & Hpairs & Ht0 & Hi0 & _).
  split.
  - rewrite builder_topics_eq, Ht, Ht0. unfold _initial_event_topic.
    by rewrite Hanon.
  - etrans; [apply length_normalize_topic_list|].
    unfold arg_topics. rewrite length_map, Hi, Hi0.
    etrans; [apply (to_dict_indexed_count pairs [])|]. simpl.
    by rewrite (indexed_pairs_count _ _ Hpairs).
Qed.

(** C4, for an anonymous descriptor: [topics] passes the empty list that
    [_initial_event_topic] returns to [to_hex] and puts the outcome at
    position 0.  So it raises what [to_hex] raises there, or returns one
    position more than the normalised positions of the indexed arguments;
    it never returns these positions alone. *)
Theorem builder_topics_anonymous `{Codec} abi b :
  builder_reachable abi b → anonymous abi = true →
  builder_topics b
  = (h ← to_hex_of_empty_list;
     Ok (PyStr h :: normalize_topic_list (arg_topics b)))
  ∧ builder_topics b ≠ Ok (normalize_topic_list (arg_topics b))
  ∧ (∀ e, to_hex_of_empty_list = Raise e → builder_topics b = Raise e).
Proof.
  intros Hr Hanon.
  apply builder_reachable_shape in Hr as (b0 & Hinit & Ht & _).
  apply EventFilterBuilder_init_Ok in Hinit as (pairs & _ & Ht0 & _).
  assert (builder_topics b
          = (h ← to_hex_of_empty_list;
             Ok (PyStr h :: normalize_topic_list (arg_topics b)))) as Heq.
  { rewrite builder_topics_eq, Ht, Ht0. unfold _initial_event_topic.
    by rewrite Hanon. }
  split; [exact Heq|]. rewrite Heq. split.
  - destruct to_hex_of_empty_list as [h|]; simpl; [|done].
    intros [= Hlen%(f_equal length)]. simpl in Hlen. lia.
  - by intros e ->.
Qed.

Lemma builder_topics_anonymous_witness :
  anonymous anonymous_abi = true
  ∧ ∃ b, builder_reachable anonymous_abi b
         ∧ builder_topics b = Raise TypeError.
Proof.
  split; [reflexivity|].
  eexists. split.
  - apply builder_init. reflexivity.
  - exact (proj2 (proj2 (builder_topics_anonymous anonymous_abi _
                           (builder_init anonymous_abi _ eq_refl) eq_refl))
             TypeError eq_refl).
Defined.

(** C5, for a descriptor with a non-indexed input: [data_arguments]
    iterates over the dict [data_args], that is over its keys, and the
    attribute [encoded_match_values] of a string does not exist. *)
Theorem data_arguments_raises `{Codec} abi b (item : InputParameter) :
  builder_reachable abi b →
  item ∈ inputs abi →
  (∀ item', item' ∈ inputs abi → name item' = name item →
            indexed item' = false) →
  data_arguments b = Raise (AttributeError "encoded_match_values").
Proof.
  intros Hr Hitem Hnon.
  apply builder_reachable_shape in Hr as (b0 & Hinit & _ & _ & Hlen).
  pose proof (data_args_nonempty abi b0 item Hinit Hitem Hnon) as Hne.
  unfold data_arguments.
  destruct (data_args b) as [|kv d]; [|done].
  destruct (data_args b0); [done | discriminate Hlen].
Qed.

Lemma data_arguments_raises_witness :
  ∃ b, builder_reachable data_abi b
       ∧ data_arguments b = Raise (AttributeError "encoded_match_values").
Proof.
  eexists. split.
  - apply builder_init. reflexivity.
  - apply (data_arguments_raises data_abi _
             {| name := "n"; type := "uint256"; indexed := false |}).
    + apply builder_init. reflexivity.
    + left.
    + intros item' Hin _. apply list_elem_of_In in Hin.
      destruct Hin as [<-|[]]. reflexivity.
Defined.

(** * Further properties *)

(** ** Topic normaliser, any removed value *)

Lemma trailing_index_dropped_eq (v : pyval) (seq : list pyval) (n i : nat)
    (x : pyval) :
  trailing_index v seq n ≤ i < n → seq !! i = Some x → py_eq x v = true.
Proof.
  induction n as [|n IH]; simpl; [lia|].
  destruct (seq !! n) as [y|] eqn:Hn; [|lia].
  destruct (py_eq y v) eqn:Hy; [|lia].
  intros [Hlo Hhi] Hi. destruct (decide (i = n)) as [->|Hne].
  - congruence.
  - apply IH; [lia|done].
Qed.

Lemma trailing_index_stop_eq (v : pyval) (seq : list pyval) (n k : nat) :
  n ≤ length seq → trailing_index v seq n = S k →
  ∃ x, seq !! k = Some x ∧ py_eq x v = false.
Proof.
  induction n as [|n IH]; simpl; [done|]. intros Hlen.
  destruct (seq !! n) as [y|] eqn:Hn.
  - destruct (py_eq y v) eqn:Hy.
    + apply IH. lia.
    + intros [= <-]. by exists y.
  - apply lookup_ge_None in Hn. lia.
Qed.

Lemma remove_trailing_from_seq_keeps (v : pyval) (seq : list pyval) :
  (∀ x, last seq = Some x → py_eq x v = false) →
  remove_trailing_from_seq v seq = seq.
Proof.
  intros Hlast. unfold remove_trailing_from_seq.
  destruct seq as [|x0 seq0] using rev_ind; [done|].
  rewrite last_snoc in Hlast.
  rewrite length_app. simpl.
  replace (length seq0 + 1) with (S (length seq0)) by lia.
  simpl. rewrite lookup_app_r, Nat.sub_diag by done. simpl.
  rewrite (Hlast x0 eq_refl).
  rewrite take_ge; [done|]. rewrite length_app. simpl. lia.
Qed.

(** For a [remove_value] that is not a list or tuple, so that the
    comparison is Python's, [remove_trailing_from_seq(seq, remove_value)]
    returns a prefix of [seq]; every element it drops equals
    [remove_value], the last element it keeps does not, and a second pass
    changes nothing. *)
Theorem remove_trailing_from_seq_prefix (v : pyval) (seq : list pyval) :
  is_list_like v = false →
  (∃ dropped,
     seq = remove_trailing_from_seq v seq ++ dropped
     ∧ Forall (λ x, py_eq x v = true) dropped)
  ∧ (∀ x, last (remove_trailing_from_seq v seq) = Some x → py_eq x v = false)
  ∧ remove_trailing_from_seq v (remove_trailing_from_seq v seq)
    = remove_trailing_from_seq v seq.
Proof.
  intros _.
  assert (∀ x, last (remove_trailing_from_seq v seq) = Some x →
               py_eq x v = false) as Hlast.
  { unfold remove_trailing_from_seq.
    destruct (trailing_index v seq (length seq)) as [|k] eqn:Hk.
    - rewrite take_0. done.
    - destruct (trailing_index_stop_eq v seq (length seq) k) as (y & Hy & Hne);
        [done..|].
      assert (S k ≤ length seq) as Hle.
      { rewrite <-Hk. apply trailing_index_le. }
      intros x. rewrite last_lookup, length_take_le by done. simpl.
      rewrite lookup_take_lt by lia. congruence. }
  split; [|split; [exact Hlast|by apply remove_trailing_from_seq_keeps]].
  unfold remove_trailing_from_seq.
  set (k := trailing_index v seq (length seq)).
  exists (drop k seq). split; [by rewrite take_drop|].
  apply Forall_forall. intros x Hx.
  apply list_elem_of_lookup in Hx as [i Hi]. rewrite lookup_drop in Hi.
  apply (trailing_index_dropped_eq v seq (length seq) (k + i)); [|done].
  fold k. apply lookup_lt_Some in Hi. lia.
Qed.

Lemma remove_trailing_from_seq_prefix_witness :
  is_list_like (PyStr "0x") = false
  ∧ remove_trailing_from_seq (PyStr "0x")
      (remove_trailing_from_seq (PyStr "0x")
         [PyStr "0x1"; PyList [PyStr "0x"]; PyStr "0x"; PyStr "0x"])
    = remove_trailing_from_seq (PyStr "0x")
        [PyStr "0x1"; PyList [PyStr "0x"]; PyStr "0x"; PyStr "0x"].
Proof.
  split; [reflexivity|].
  exact (proj2 (proj2 (remove_trailing_from_seq_prefix (PyStr "0x")
                         [PyStr "0x1"; PyList [PyStr "0x"]; PyStr "0x";
                          PyStr "0x"] eq_refl))).
Defined.

Lemma pop_singlets_wildcard (p : pyval) :
  (match p with PyList [x] => x | _ => p end) = PyNone
  ↔ p = PyNone ∨ p = PyList [PyNone].
Proof.
  destruct p as [| | | | |[|x [|]]];
    (split; [intros Hp | intros [Hp|Hp]]); simplify_eq; auto.
Qed.

Lemma normalize_topic_list_wildcards (seq : list pyval) :
  Forall (λ p, p = PyNone ∨ p = PyList [PyNone]) seq →
  normalize_topic_list seq = [].
Proof.
  intros Hall. unfold normalize_topic_list.
  pose proof (remove_trailing_from_seq_split (pop_singlets seq)) as Hsplit.
  pose proof (remove_trailing_from_seq_last (pop_singlets seq)) as Hlast.
  destruct (remove_trailing_from_seq PyNone (pop_singlets seq))
    as [|x r] using rev_ind; [done|].
  rewrite last_snoc in Hlast. destruct Hlast. f_equal.
  assert (x ∈ pop_singlets seq) as Hin.
  { rewrite Hsplit. apply elem_of_app. left. apply elem_of_app. right.
    by left. }
  unfold pop_singlets in Hin.
  apply list_elem_of_fmap in Hin as (p & -> & Hp).
  apply pop_singlets_wildcard. by eapply (proj1 (Forall_forall _ _) Hall).
Qed.

(** [normalize_topic_list] returns the empty sequence exactly when every
    position is a wildcard, bare or wrapped in a one-element list. *)
Theorem normalize_topic_list_empty (seq : list pyval) :
  normalize_topic_list seq = []
  ↔ Forall (λ p, p = PyNone ∨ p = PyList [PyNone]) seq.
Proof.
  split; [|apply normalize_topic_list_wildcards].
  unfold normalize_topic_list. intros Hnil.
  pose proof (remove_trailing_from_seq_split (pop_singlets seq)) as Hsplit.
  rewrite Hnil in Hsplit. simpl in Hsplit.
  apply Forall_forall. intros p Hp. apply pop_singlets_wildcard.
  assert (match p with PyList [x] => x | _ => p end ∈ pop_singlets seq)
    as Hin.
  { unfold pop_singlets. apply list_elem_of_fmap. by exists p. }
  rewrite Hsplit in Hin. by apply elem_of_replicate in Hin as [? _].
Qed.

(** When the last position is constrained (neither a wildcard nor a wrapped
    wildcard) nothing is trimmed: the result is the unwrapped sequence,
    position for position. *)
Theorem normalize_topic_list_constrained_last (seq : list pyval) (x : pyval) :
  x ≠ PyNone → x ≠ PyList [PyNone] →
  normalize_topic_list (seq ++ [x]) = pop_singlets (seq ++ [x])
  ∧ length (normalize_topic_list (seq ++ [x])) = S (length seq).
Proof.
  intros Hx1 Hx2.
  assert (normalize_topic_list (seq ++ [x]) = pop_singlets (seq ++ [x]))
    as Heq.
  { unfold normalize_topic_list. apply remove_trailing_from_seq_fixed.
    unfold pop_singlets. rewrite map_app. simpl. rewrite last_snoc.
    destruct x as [| | | | |[|y [|]]]; try done.
    intros [= ->]. done. }
  split; [exact Heq|].
  rewrite Heq, length_pop_singlets, length_app. simpl. lia.
Qed.

Lemma normalize_topic_list_constrained_last_witness :
  normalize_topic_list ([PyNone; PyList [PyStr "0x2"]] ++ [PyStr "0x3"])
  = pop_singlets ([PyNone; PyList [PyStr "0x2"]] ++ [PyStr "0x3"]).
Proof.
  exact (proj1 (normalize_topic_list_constrained_last
                  [PyNone; PyList [PyStr "0x2"]] (PyStr "0x3")
                  ltac:(discriminate) ltac:(discriminate))).
Defined.

(** ** Exhaustive combination builder, further *)

Lemma for_each_Raise_intro {A B} (f : A → result B) (l : list A) (x : A)
    (e : exn) :
  x ∈ l → f x = Raise e → ∃ e', for_each f l = Raise e'.
Proof.
  induction l as [|y l IH]; intros Hx Hfx.
  - by apply elem_of_nil in Hx.
  - simpl. apply elem_of_cons in Hx as [<-|Hx].
    + rewrite Hfx. simpl. by eexists.
    + destruct (f y) as [b|e1]; simpl; [|by eexists].
      destruct (IH Hx Hfx) as [e' ->]. simpl. by eexists.
Qed.

Lemma length_product {A} (iterables : list (list A)) :
  length (product iterables) = foldr (λ l n, length l * n) 1 iterables.
Proof.
  induction iterables as [|l rest IH]; simpl; [done|].
  rewrite <-IH. generalize (product rest). intros ps.
  induction l as [|x l IHl]; simpl; [done|].
  rewrite length_app, length_fmap. unfold mbind in IHl. by rewrite IHl.
Qed.

Lemma product_lengths {A} (iterables : list (list A)) :
  Forall (λ p, length p = length iterables) (product iterables).
Proof.
  induction iterables as [|l rest IH]; simpl; [by repeat constructor|].
  apply Forall_forall. intros p Hp.
  apply list_elem_of_bind in Hp as (x & Hp & _).
  apply list_elem_of_fmap in Hp as (q & -> & Hq). simpl.
  by rewrite (proj1 (Forall_forall _ _) IH q Hq).
Qed.

Lemma product_singletons {A B} (x : B) (l : list A) :
  product (map (λ _, [x]) l) = [map (λ _, x) l].
Proof. induction l as [|a l IH]; simpl; [done|]. by rewrite IH. Qed.

Section CombinationFacts2.
Context `{Codec}.

Lemma zip_abi_and_args_options d abi_args :
  zip_abi_and_args (normalized_arg <$> d) abi_args
  = map (λ arg, (arg, arg_options d arg)) abi_args.
Proof. reflexivity. Qed.

(** The encoded options keep the number of options of every input, so the
    product has one permutation for every combination. *)
Lemma encode_args_product d abi_args encoded_args :
  encode_args (zip_abi_and_args (normalized_arg <$> d) abi_args)
  = Ok encoded_args →
  length (product encoded_args) = combinations d abi_args
  ∧ Forall (λ p, length p = length abi_args) (product encoded_args).
Proof.
  rewrite zip_abi_and_args_options. intros Henc.
  apply encode_args_Ok in Henc.
  split.
  - rewrite length_product. unfold combinations.
    revert encoded_args Henc.
    induction abi_args as [|arg rest IH]; intros encoded_args Henc.
    + by inversion Henc.
    + inversion Henc as [|? opts ? encs Hopts Hrest]; subst. simpl.
      apply Forall2_length in Hopts. rewrite <-Hopts. f_equal. by apply IH.
  - apply Forall2_length in Henc. rewrite length_map in Henc.
    rewrite Henc. apply product_lengths.
Qed.

Lemma encode_args_Raise zipped e :
  encode_args zipped = Raise e
  ↔ e = CodecError "encode_single"
    ∧ ∃ arg arg_options option,
        (arg, arg_options) ∈ zipped ∧ option ∈ arg_options
        ∧ option ≠ PyNone ∧ encode_single (type arg) option = None.
Proof.
  unfold encode_args. split.
  - intros Hr. apply for_each_Raise in Hr as ([arg opts] & Hin & Hr).
    apply for_each_Raise in Hr as (option & Hopt & Hr).
    destruct (is_None option) eqn:Hnone; [done|].
    destruct (encode_single (type arg) option) as [bs|] eqn:Hbs;
      simpl in Hr; [done|].
    injection Hr as <-. split; [done|].
    exists arg, opts, option. repeat split; try done.
    intros ->. discriminate.
  - intros (-> & arg & opts & option & Hin & Hopt & Hne & Hbs).
    assert (∃ e', for_each (λ option,
                if is_None option then Ok PyNone
                else encoded ← primitive "encode_single"
                                 (encode_single (type arg) option);
                     Ok (PyStr (encode_hex encoded))) opts = Raise e')
      as [e1 He1].
    { eapply for_each_Raise_intro; [exact Hopt|].
      destruct option; try done; simpl; by rewrite Hbs. }
    edestruct (for_each_Raise_intro
      (λ '(arg, arg_options),
         for_each (λ option,
           if is_None option then Ok PyNone
           else encoded ← primitive "encode_single"
                            (encode_single (type arg) option);
                Ok (PyStr (encode_hex encoded))) arg_options)
      zipped (arg, opts) e1 Hin He1) as [e2 He2].
    rewrite He2. f_equal.
    apply for_each_Raise in He2 as ([arg' opts'] & _ & He2).
    apply for_each_Raise in He2 as (option' & _ & He2).
    destruct (is_None option'); [done|].
    destruct (encode_single (type arg') option'); simpl in He2; [done|].
    by injection He2 as <-.
Qed.

(** A positional argument list becomes a dict of one-element lists. *)
Lemma arguments_as_dict_positional event_abi l d :
  arguments_as_dict event_abi (ArgsSeq l) = Ok d →
  length l = length (inputs event_abi)
  ∧ map_Forall (λ _ value, ∃ x, value = PyList [x]) d.
Proof.
  simpl. case_bool_decide as Hlen; [done|]. intros [= <-].
  split.
  { destruct (decide (length l = length (inputs event_abi))); [done|].
    by destruct Hlen. }
  generalize (zip (inputs event_abi) l). intros pairs.
  assert (map_Forall (λ (_ : string) value, ∃ x, value = PyList [x])
            (∅ : gmap string pyval)) as Hempty by apply map_Forall_empty.
  revert Hempty. generalize (∅ : gmap string pyval).
  induction pairs as [|[arg v] pairs IH]; intros d Hd; simpl; [done|].
  apply IH. apply map_Forall_insert_2; [by eexists | done].
Qed.

Lemma combinations_single d abi_args :
  map_Forall (λ _ value, ∃ x, value = PyList [x]) d →
  combinations d abi_args = 1.
Proof.
  intros Hd. unfold combinations.
  induction abi_args as [|arg rest IH]; simpl; [done|].
  rewrite IH. unfold arg_options. rewrite lookup_fmap.
  destruct (d !! name arg) as [value|] eqn:Hv; simpl; [|done].
  destruct (Hd _ _ Hv) as [x ->]. done.
Qed.

End CombinationFacts2.

Section CombinationFacts3.
Context `{Codec}.

Lemma encode_args_wildcards d abi_args :
  (∀ arg, arg ∈ abi_args → arg_options d arg = [PyNone]) →
  encode_args (zip_abi_and_args (normalized_arg <$> d) abi_args)
  = Ok (map (λ _, [PyNone]) abi_args).
Proof.
  rewrite zip_abi_and_args_options. unfold encode_args.
  induction abi_args as [|arg rest IH]; intros Hall; [done|].
  cbn [map for_each]. rewrite (Hall arg) by left.
  cbn [for_each is_None]. simpl. rewrite IH; [done|].
  intros a Ha. apply Hall. by right.
Qed.

Lemma any_not_None_wildcards {A} (l : list A) :
  any_not_None (map (λ _, PyNone) l) = false.
Proof. by induction l. Qed.

Lemma arg_options_wildcard (d : gmap string pyval) arg :
  d !! name arg = None ∨ d !! name arg = Some PyNone →
  arg_options d arg = [PyNone].
Proof.
  unfold arg_options. rewrite lookup_fmap. by intros [->| ->].
Qed.

End CombinationFacts3.

(** With no arguments, or with arguments that leave every relevant
    parameter out or at [None], the topic set is the one vector holding the
    signature topic and the data set is the one empty vector. *)
Theorem construct_event_sets_unconstrained `{Codec} event_abi :
  construct_event_topic_set event_abi ArgsNone
  = Ok [[PyStr (encode_hex (event_abi_to_log_topic event_abi))]]
  ∧ construct_event_data_set event_abi ArgsNone = Ok [[]]
  ∧ ∀ args : gmap string pyval,
      ((∀ arg, arg ∈ get_indexed_event_inputs event_abi →
               args !! name arg = None ∨ args !! name arg = Some PyNone) →
       construct_event_topic_set event_abi (ArgsDict args)
       = Ok [[PyStr (encode_hex (event_abi_to_log_topic event_abi))]])
      ∧ ((∀ arg, arg ∈ exclude_indexed_event_inputs event_abi →
                 args !! name arg = None ∨ args !! name arg = Some PyNone) →
         construct_event_data_set event_abi (ArgsDict args) = Ok [[]]).
Proof.
  assert (∀ args : gmap string pyval,
    ((∀ arg, arg ∈ get_indexed_event_inputs event_abi →
             args !! name arg = None ∨ args !! name arg = Some PyNone) →
     construct_event_topic_set event_abi (ArgsDict args)
     = Ok [[PyStr (encode_hex (event_abi_to_log_topic event_abi))]])
    ∧ ((∀ arg, arg ∈ exclude_indexed_event_inputs event_abi →
               args !! name arg = None ∨ args !! name arg = Some PyNone) →
       construct_event_data_set event_abi (ArgsDict args) = Ok [[]]))
    as Hdict.
  { intros args. split; intros Hargs.
    - unfold construct_event_topic_set. simpl.
      rewrite encode_args_wildcards
        by (intros arg Harg; by apply arg_options_wildcard, Hargs).
      simpl. rewrite product_singletons. simpl.
      by rewrite any_not_None_wildcards.
    - unfold construct_event_data_set. simpl.
      rewrite encode_args_wildcards
        by (intros arg Harg; by apply arg_options_wildcard, Hargs).
      simpl. rewrite product_singletons. simpl.
      by rewrite any_not_None_wildcards. }
  split; [|split; [|exact Hdict]].
  - apply (proj1 (Hdict ∅)). intros arg _. left. apply lookup_empty.
  - apply (proj2 (Hdict ∅)). intros arg _. left. apply lookup_empty.
Qed.

(** The builders enumerate the full cartesian product: a successful call
    returns one vector for every combination of the options of the relevant
    parameters.  Every topic vector begins with the signature topic and has
    1 or 1 + count(indexed inputs) entries; every data vector has none or
    count(non-indexed inputs) entries. *)
Theorem construct_event_sets_product `{Codec} event_abi arguments d :
  arguments_as_dict event_abi arguments = Ok d →
  (∀ vectors, construct_event_topic_set event_abi arguments = Ok vectors →
     length vectors = combinations d (get_indexed_event_inputs event_abi)
     ∧ Forall (λ v,
         head v = Some (PyStr (encode_hex (event_abi_to_log_topic event_abi)))
         ∧ (length v = 1
            ∨ length v = S (length (get_indexed_event_inputs event_abi))))
         vectors)
  ∧ (∀ vectors, construct_event_data_set event_abi arguments = Ok vectors →
       length vectors = combinations d (exclude_indexed_event_inputs event_abi)
       ∧ Forall (λ v,
           length v = 0
           ∨ length v = length (exclude_indexed_event_inputs event_abi))
           vectors).
Proof.
  intros Hd. split; intros vectors.
  - unfold construct_event_topic_set. rewrite Hd. simpl.
    destruct (encode_args _) as [encoded_args|] eqn:Henc; simpl; [|done].
    intros [= <-]. apply encode_args_product in Henc as [Hlen Hall].
    split; [by rewrite length_map|].
    apply Forall_forall. intros v Hv.
    apply list_elem_of_fmap in Hv as (p & -> & Hp).
    pose proof (proj1 (Forall_forall _ _) Hall p Hp) as Hp'. simpl in Hp'.
    destruct (any_not_None p); simpl; [|auto]. rewrite Hp'. auto.
  - unfold construct_event_data_set. rewrite Hd. simpl.
    destruct (encode_args _) as [encoded_args|] eqn:Henc; simpl; [|done].
    intros [= <-]. apply encode_args_product in Henc as [Hlen Hall].
    split; [by rewrite length_map|].
    apply Forall_forall. intros v Hv.
    apply list_elem_of_fmap in Hv as (p & -> & Hp).
    pose proof (proj1 (Forall_forall _ _) Hall p Hp) as Hp'. simpl in Hp'.
    destruct (any_not_None p); simpl; auto.
Qed.

Lemma construct_event_sets_product_witness :
  ∃ vectors,
    construct_event_topic_set string_event_abi
      (ArgsDict {[ "s" := PyList [PyStr "pizza"; PyStr "pancake"; PyNone] ]})
    = Ok vectors
    ∧ length vectors = 3.
Proof.
  eexists. split; [reflexivity|].
  exact (proj1 (proj1 (construct_event_sets_product string_event_abi
                         (ArgsDict {[ "s" := PyList [PyStr "pizza";
                                                    PyStr "pancake"; PyNone] ]})
                         _ eq_refl) _ eq_refl)).
Defined.

(** A positional argument list of the wrong length is refused by both
    builders; one of the right length gives every parameter one option, so a
    successful call returns exactly one vector. *)
Theorem construct_event_sets_positional `{Codec} event_abi (l : list pyval) :
  (length l ≠ length (inputs event_abi) →
   construct_event_topic_set event_abi (ArgsSeq l)
   = Raise ValueError_argument_count
   ∧ construct_event_data_set event_abi (ArgsSeq l)
     = Raise ValueError_argument_count)
  ∧ (∀ vectors,
       construct_event_topic_set event_abi (ArgsSeq l) = Ok vectors →
       length l = length (inputs event_abi) ∧ length vectors = 1)
  ∧ (∀ vectors,
       construct_event_data_set event_abi (ArgsSeq l) = Ok vectors →
       length l = length (inputs event_abi) ∧ length vectors = 1).
Proof.
  split; [|split].
  - intros Hlen. unfold construct_event_topic_set, construct_event_data_set.
    simpl. by rewrite bool_decide_eq_true_2.
  - intros vectors Hv.
    destruct (arguments_as_dict event_abi (ArgsSeq l)) as [d|e] eqn:Hd.
    + pose proof (arguments_as_dict_positional _ _ _ Hd) as [Hlen Hall].
      split; [done|]. unfold construct_event_topic_set in Hv.
      rewrite Hd in Hv. simpl in Hv.
      destruct (encode_args _) as [encoded_args|] eqn:Henc; simpl in Hv;
        [|done].
      injection Hv as <-. apply encode_args_product in Henc as [Hlen' _].
      by rewrite length_map, Hlen', combinations_single.
    + unfold construct_event_topic_set in Hv. by rewrite Hd in Hv.
  - intros vectors Hv.
    destruct (arguments_as_dict event_abi (ArgsSeq l)) as [d|e] eqn:Hd.
    + pose proof (arguments_as_dict_positional _ _ _ Hd) as [Hlen Hall].
      split; [done|]. unfold construct_event_data_set in Hv.
      rewrite Hd in Hv. simpl in Hv.
      destruct (encode_args _) as [encoded_args|] eqn:Henc; simpl in Hv;
        [|done].
      injection Hv as <-. apply encode_args_product in Henc as [Hlen' _].
      by rewrite length_map, Hlen', combinations_single.
    + unfold construct_event_data_set in Hv. by rewrite Hd in Hv.
Qed.

(** With arguments given as a mapping, [construct_event_topic_set] raises
    exactly when some option other than [None] of an indexed parameter is
    refused by [encode_single], and then with the exception of the encoder;
    [construct_event_data_set] likewise over the non-indexed parameters. *)
Theorem construct_event_sets_raise `{Codec} event_abi
    (args : gmap string pyval) (e : exn) :
  (construct_event_topic_set event_abi (ArgsDict args) = Raise e
   ↔ e = CodecError "encode_single"
     ∧ ∃ arg option,
         arg ∈ get_indexed_event_inputs event_abi
         ∧ option ∈ arg_options args arg
         ∧ option ≠ PyNone ∧ encode_single (type arg) option = None)
  ∧ (construct_event_data_set event_abi (ArgsDict args) = Raise e
     ↔ e = CodecError "encode_single"
       ∧ ∃ arg option,
           arg ∈ exclude_indexed_event_inputs event_abi
           ∧ option ∈ arg_options args arg
           ∧ option ≠ PyNone ∧ encode_single (type arg) option = None).
Proof.
  assert (∀ abi_args,
    encode_args (zip_abi_and_args (normalized_arg <$> args) abi_args) = Raise e
    ↔ e = CodecError "encode_single"
      ∧ ∃ arg option,
          arg ∈ abi_args ∧ option ∈ arg_options args arg
          ∧ option ≠ PyNone ∧ encode_single (type arg) option = None)
    as Henc.
  { intros abi_args. rewrite encode_args_Raise, zip_abi_and_args_options.
    split.
    - intros (-> & arg & opts & option & Hin & Hopt & Hne & Hbs).
      split; [done|].
      apply list_elem_of_fmap in Hin as (arg' & [= -> ->] & Harg).
      by exists arg', option.
    - intros (-> & arg & option & Harg & Hopt & Hne & Hbs).
      split; [done|]. exists arg, (arg_options args arg), option.
      split; [|done]. apply list_elem_of_fmap. by exists arg. }
  split.
  - rewrite <-Henc. unfold construct_event_topic_set. simpl.
    destruct (encode_args _) as [encoded_args|e']; simpl; [done|].
    split; congruence.
  - rewrite <-Henc. unfold construct_event_data_set. simpl.
    destruct (encode_args _) as [encoded_args|e']; simpl; [done|].
    split; congruence.
Qed.

(** ** Log decoder, further *)

Lemma dict_set_fresh {A} (d : list (string * A)) k v :
  k ∉ d.*1 → dict_set d k v = d ++ [(k, v)].
Proof.
  induction d as [|[k' v'] d IH]; simpl; [done|].
  intros Hk. apply not_elem_of_cons in Hk as [Hne Hk].
  destruct (decide (k' = k)) as [->|_]; [done|]. by rewrite IH.
Qed.

Lemma foldl_dict_set_NoDup {A} (pairs d : list (string * A)) :
  NoDup (d ++ pairs).*1 →
  foldl (λ d kv, dict_set d kv.1 kv.2) d pairs = d ++ pairs.
Proof.
  revert d. induction pairs as [|[k v] pairs IH]; intros d Hnd; simpl.
  - by rewrite app_nil_r.
  - rewrite dict_set_fresh.
    + rewrite IH; rewrite <-app_assoc; done.
    + rewrite fmap_app in Hnd. apply NoDup_app in Hnd as (_ & Hd & _).
      intros Hk. apply (Hd k Hk). simpl. left.
Qed.

(** [dict(pairs)] of pairs with distinct keys has the pairs in their order. *)
Lemma to_dict_NoDup {A} (pairs : list (string * A)) :
  NoDup pairs.*1 → to_dict pairs = pairs.
Proof. intros Hnd. by apply (foldl_dict_set_NoDup pairs []). Qed.

(** Distinct names stay distinct across the indexed split. *)
Lemma NoDup_names_split (event_abi : EventDescriptor) :
  NoDup (map name (inputs event_abi)) →
  NoDup (get_abi_input_names (get_indexed_event_inputs event_abi)
         ++ get_abi_input_names (exclude_indexed_event_inputs event_abi)).
Proof.
  unfold get_abi_input_names, get_indexed_event_inputs,
    exclude_indexed_event_inputs.
  generalize (inputs event_abi). intros l Hnd.
  apply NoDup_app. split; [|split].
  - apply (NoDup_fmap_2_strong name); [|by apply NoDup_filter, (NoDup_fmap_1 name)].
    intros x y Hx Hy Hxy.
    apply list_elem_of_filter in Hx as [_ Hx].
    apply list_elem_of_filter in Hy as [_ Hy].
    apply list_elem_of_lookup in Hx as [i Hi].
    apply list_elem_of_lookup in Hy as [j Hj].
    assert (i = j) as ->; [|congruence].
    eapply NoDup_lookup; [exact Hnd|..]; rewrite list_lookup_fmap.
    + by rewrite Hi.
    + rewrite Hj. simpl. by rewrite Hxy.
  - intros n Hn1 Hn2.
    apply list_elem_of_fmap in Hn1 as (x & -> & Hx).
    apply list_elem_of_fmap in Hn2 as (y & Hxy & Hy).
    apply list_elem_of_filter in Hx as [Hxi Hx].
    apply list_elem_of_filter in Hy as [Hyi Hy].
    apply list_elem_of_lookup in Hx as [i Hi].
    apply list_elem_of_lookup in Hy as [j Hj].
    assert (i = j) as ->; [|congruence].
    eapply NoDup_lookup; [exact Hnd|..]; rewrite list_lookup_fmap.
    + by rewrite Hi.
    + rewrite Hj. simpl. by rewrite Hxy.
  - apply (NoDup_fmap_2_strong name); [|by apply NoDup_filter, (NoDup_fmap_1 name)].
    intros x y Hx Hy Hxy.
    apply list_elem_of_filter in Hx as [_ Hx].
    apply list_elem_of_filter in Hy as [_ Hy].
    apply list_elem_of_lookup in Hx as [i Hi].
    apply list_elem_of_lookup in Hy as [j Hj].
    assert (i = j) as ->; [|congruence].
    eapply NoDup_lookup; [exact Hnd|..]; rewrite list_lookup_fmap.
    + by rewrite Hi.
    + rewrite Hj. simpl. by rewrite Hxy.
Qed.

Lemma length_get_event_abi_types_for_decoding `{Codec} event_inputs types :
  get_event_abi_types_for_decoding event_inputs = Ok types →
  length types = length event_inputs.
Proof.
  intros Ht. apply for_each_Ok in Ht. symmetry. by eapply Forall2_length.
Qed.

(** [get_event_abi_types_for_decoding] keeps the type of every input but
    those that are indexed and dynamically sized, which it replaces by
    [bytes32]; it consults the type parser for indexed inputs only, so on
    non-indexed inputs it cannot raise. *)
Theorem get_event_abi_types_for_decoding_spec `{Codec}
    (event_inputs : list InputParameter) :
  (∀ types,
     get_event_abi_types_for_decoding event_inputs = Ok types
     ↔ Forall2 (λ input_abi ty,
         if indexed input_abi
         then ∃ dynamic,
                is_dynamic_sized_type (type input_abi) = Ok dynamic
                ∧ ty = if dynamic : bool then "bytes32" else type input_abi
         else ty = type input_abi)
         event_inputs types)
  ∧ (Forall (λ input_abi, indexed input_abi = false) event_inputs →
     get_event_abi_types_for_decoding event_inputs
     = Ok (map type event_inputs)).
Proof.
  split.
  - intros types. unfold get_event_abi_types_for_decoding.
    rewrite for_each_Ok.
    split; intros Hall; (eapply Forall2_impl; [exact Hall|]);
      intros input_abi ty; simpl; destruct (indexed input_abi).
    + destruct (is_dynamic_sized_type (type input_abi)) as [dynamic|e];
        simpl; [|done].
      intros [= <-]. by exists dynamic.
    + by intros [= <-].
    + intros (dynamic & -> & ->). done.
    + by intros ->.
  - intros Hall. unfold get_event_abi_types_for_decoding.
    induction Hall as [|input_abi rest Hix _ IH]; [done|].
    cbn [for_each map]. rewrite Hix. simpl. by rewrite IH.
Qed.

(** When the decoder returns an event for a descriptor with distinct
    parameter names: [args] has one entry a parameter, the indexed ones
    first and then the others, each group in declaration order; the event
    name is the descriptor's and the six fields of the log entry are passed
    through; the log entry has one topic an indexed parameter, after the
    signature topic unless the event is anonymous.  The imported primitives
    are taken to keep lengths: one value a type, one input an input. *)
Theorem get_event_data_Ok `{Codec} event_abi log_entry event_data :
  (∀ abi_inputs,
     length (normalize_event_input_types abi_inputs) = length abi_inputs) →
  (∀ types values, length (map_abi_data types values) = length values) →
  (∀ types bs values,
     decode_abi types bs = Some values → length values = length types) →
  NoDup (map name (inputs event_abi)) →
  get_event_data event_abi log_entry = Ok event_data →
  (ev_args event_data).*1
  = get_abi_input_names (get_indexed_event_inputs event_abi)
    ++ get_abi_input_names (exclude_indexed_event_inputs event_abi)
  ∧ ev_event event_data = event_name event_abi
  ∧ ev_logIndex event_data = logIndex log_entry
  ∧ ev_transactionIndex event_data = transactionIndex log_entry
  ∧ ev_transactionHash event_data = transactionHash log_entry
  ∧ ev_address event_data = address log_entry
  ∧ ev_blockHash event_data = blockHash log_entry
  ∧ ev_blockNumber event_data = blockNumber log_entry
  ∧ length (topics log_entry)
    = (if anonymous event_abi then 0 else 1)
      + length (get_indexed_event_inputs event_abi).
Proof.
  intros Hnorm Hmap Hdec Hnd. unfold get_event_data.
  destruct (get_log_topics event_abi log_entry) as [log_topics|] eqn:Hlt;
    simpl; [|done].
  unfold decode_event_data.
  destruct (get_event_abi_types_for_decoding
              (normalize_event_input_types (get_indexed_event_inputs event_abi)))
    as [topic_types|] eqn:Htt; simpl; [|done].
  case_bool_decide as Hcount; [done|].
  destruct (primitive "to_bytes" _) as [log_data|]; simpl; [|done].
  destruct (get_event_abi_types_for_decoding
              (normalize_event_input_types (exclude_indexed_event_inputs event_abi)))
    as [data_types|] eqn:Hdt; simpl; [|done].
  case_bool_decide; [done|].
  destruct (decode_abi data_types log_data) as [decoded_log_data|] eqn:Hda;
    simpl; [|done].
  destruct (for_each _ (zip topic_types log_topics))
    as [decoded_topic_data|] eqn:Hds; simpl; [|done].
  intros [= <-]. simpl.
  assert (length log_topics = length topic_types) as Hlen.
  { destruct (decide (length log_topics = length topic_types)); [done|].
    by destruct Hcount. }
  apply length_get_event_abi_types_for_decoding in Htt, Hdt.
  rewrite Hnorm in Htt, Hdt.
  apply for_each_Ok, Forall2_length in Hds. rewrite length_zip in Hds.
  apply Hdec in Hda.
  split; [|repeat (split; [reflexivity|])].
  - rewrite to_dict_NoDup.
    + rewrite fmap_app, !fst_zip; [done|..];
        unfold get_abi_input_names; rewrite length_map, Hmap; lia.
    + rewrite fmap_app, !fst_zip;
        [by apply NoDup_names_split|..];
        unfold get_abi_input_names; rewrite length_map, Hmap; lia.
  - unfold get_log_topics in Hlt. destruct (anonymous event_abi).
    + injection Hlt as ->. simpl. lia.
    + destruct (topics log_entry) as [|topic0 rest]; [done|].
      case_bool_decide; [done|]. injection Hlt as ->. simpl. lia.
Qed.

Lemma get_event_data_Ok_witness :
  NoDup (map name (inputs string_event_abi))
  ∧ ∃ event_data,
      get_event_data string_event_abi
        (log_with_topics [event_abi_to_log_topic string_event_abi; [x01]])
      = Ok event_data
      ∧ (ev_args event_data).*1 = ["s"; "n"].
Proof.
  assert (NoDup (map name (inputs string_event_abi))) as Hnd.
  { simpl. apply NoDup_cons. split.
    - intros Hin. apply list_elem_of_singleton in Hin. discriminate.
    - apply NoDup_singleton. }
  split; [exact Hnd|].
  eexists. split; [reflexivity|].
  exact (proj1 (get_event_data_Ok string_event_abi
                  (log_with_topics
                     [event_abi_to_log_topic string_event_abi; [x01]]) _
                  (λ _, eq_refl) (λ _ _, eq_refl)
                  (λ types bs values Hda,
                     match Hda in _ = o
                       return match o with
                              | Some vs => length vs = length types
                              | None => True
                              end
                     with eq_refl => length_map _ _ end)
                  Hnd eq_refl)).
Defined.

(** The topic-count error is raised exactly when the first statement
    passes, the decode types of the indexed inputs are computed, and the
    number of remaining topics differs from the number of those types; it
    reports the two numbers, the expected one first. *)
Theorem get_event_data_topic_count `{Codec} event_abi log_entry
    (expected got : nat) :
  get_event_data event_abi log_entry
  = Raise (ValueError_topic_count expected got)
  ↔ ∃ log_topics topic_types,
      get_log_topics event_abi log_entry = Ok log_topics
      ∧ get_event_abi_types_for_decoding
          (normalize_event_input_types (get_indexed_event_inputs event_abi))
        = Ok topic_types
      ∧ expected = length topic_types
      ∧ got = length log_topics
      ∧ got ≠ expected.
Proof.
  unfold get_event_data. split.
  - destruct (get_log_topics event_abi log_entry) as [log_topics|e] eqn:Hlt;
      simpl.
    2:{ intros [= ->]. unfold get_log_topics in Hlt.
        destruct (anonymous event_abi); [done|].
        destruct (topics log_entry); [done|]. by case_bool_decide. }
    unfold decode_event_data.
    destruct (get_event_abi_types_for_decoding
                (normalize_event_input_types
                   (get_indexed_event_inputs event_abi)))
      as [topic_types|e] eqn:Htt; simpl.
    2:{ intros [= ->].
        by apply get_event_abi_types_for_decoding_Raise in Htt. }
    case_bool_decide as Hcount.
    { intros [= <- <-]. by exists log_topics, topic_types. }
    destruct (primitive "to_bytes" _) as [log_data|e] eqn:Hb; simpl.
    2:{ intros [= ->]. by apply primitive_Raise in Hb. }
    destruct (get_event_abi_types_for_decoding
                (normalize_event_input_types
                   (exclude_indexed_event_inputs event_abi)))
      as [data_types|e] eqn:Hdt; simpl.
    2:{ intros [= ->].
        by apply get_event_abi_types_for_decoding_Raise in Hdt. }
    case_bool_decide; [done|].
    destruct (primitive "decode_abi" _) as [decoded|e] eqn:Hda; simpl.
    2:{ intros [= ->]. by apply primitive_Raise in Hda. }
    destruct (for_each _ (zip topic_types log_topics)) as [td|e] eqn:Hds;
      simpl; [done|].
    intros [= ->]. apply for_each_Raise in Hds as ([ty t] & _ & Hds).
    by apply primitive_Raise in Hds.
  - intros (log_topics & topic_types & -> & Htt & -> & -> & Hne). simpl.
    unfold decode_event_data. rewrite Htt. simpl.
    by rewrite bool_decide_eq_true_2.
Qed.

(** ** Argument matcher and filter builder, further *)

(** [match_single] and [match_any] raise exactly when [encode_single]
    refuses the value, or one of the values, for the declared type, and then
    with the exception of the encoder; matching any of one value is matching
    that value. *)
Theorem ArgumentFilter_match_raises `{Codec} (af : ArgumentFilter) :
  (∀ v e, match_single af v = Raise e
          ↔ e = CodecError "encode_single"
            ∧ encode_single (arg_type af) v = None)
  ∧ (∀ vs e, match_any af vs = Raise e
             ↔ e = CodecError "encode_single"
               ∧ ∃ v, v ∈ vs ∧ encode_single (arg_type af) v = None)
  ∧ (∀ v, match_any af [v] = match_single af v).
Proof.
  assert (∀ v e, _encode af v = Raise e
                 ↔ e = CodecError "encode_single"
                   ∧ encode_single (arg_type af) v = None) as Henc.
  { intros v e. unfold _encode.
    destruct (encode_single (arg_type af) v) as [bs|]; simpl.
    - destruct (is_indexed af && is_dynamic af); split; try done;
        by intros [_ ?].
    - split; [by intros [= <-] | by intros [-> _]]. }
  split; [|split].
  - intros v e. rewrite <-Henc. unfold match_single, _normalize.
    destruct (_encode af v); simpl; [done|]. split; congruence.
  - intros vs e. unfold match_any, _normalize. rewrite map_id. split.
    + destruct (for_each _ vs) as [encoded|e'] eqn:Hfe; simpl; [done|].
      intros [= ->]. apply for_each_Raise in Hfe as (v & Hv & Hfe).
      destruct (_encode af v) as [h|e'] eqn:Hh; simpl in Hfe; [done|].
      injection Hfe as <-. apply Henc in Hh as [-> Hbs].
      split; [done|]. by exists v.
    + intros (-> & v & Hv & Hbs).
      assert ((λ value, PyStr <$> _encode af value) v
              = Raise (CodecError "encode_single")) as Hfv.
      { simpl. by rewrite (proj2 (Henc v _) (conj eq_refl Hbs)). }
      destruct (for_each_Raise_intro _ vs v _ Hv Hfv) as [e' He'].
      rewrite He'. simpl. f_equal.
      apply for_each_Raise in He' as (w & _ & He').
      destruct (_encode af w) as [h|e''] eqn:Hw; simpl in He'; [done|].
      injection He' as <-. by apply Henc in Hw as [-> _].
  - intros v. unfold match_any, match_single, _normalize. simpl.
    by destruct (_encode af v).
Qed.

Section BuilderFacts2.
Context `{Codec}.

(** Every matcher of a constructed builder is at its wildcard. *)
Lemma EventFilterBuilder_init_fresh abi b :
  EventFilterBuilder_init abi = Ok b →
  Forall (λ kv : string * ArgumentFilter,
            encoded_match_values kv.2 = [PyNone]) (indexed_args b).
Proof.
  unfold EventFilterBuilder_init, _init_argument_filters.
  destruct (for_each _ (inputs abi)) as [pairs|] eqn:Hfe; simpl; [|done].
  intros [= <-]. simpl.
  assert (Forall (λ kv : string * ArgumentFilter,
                    encoded_match_values kv.2 = [PyNone]) pairs) as Hpairs.
  { apply for_each_Ok in Hfe. apply Forall_forall. intros kv Hkv.
    apply list_elem_of_lookup in Hkv as [i Hi].
    destruct (Forall2_lookup_r _ _ _ _ _ Hfe Hi) as (item & _ & Hitem).
    simpl in Hitem. unfold ArgumentFilter_init in Hitem.
    destruct (is_dynamic_sized_type (type item)); simpl in Hitem; [|done].
    by injection Hitem as <-. }
  apply Forall_forall. intros kv Hkv.
  apply list_elem_of_filter in Hkv as [_ Hkv].
  apply to_dict_entries in Hkv as [Hnil|Hkv]; [by apply elem_of_nil in Hnil|].
  by apply (proj1 (Forall_forall _ _) Hpairs).
Qed.

End BuilderFacts2.

(** A newly built filter of a non-anonymous event constrains the signature
    only: [topics] is the one position holding the signature topic, however
    many indexed parameters the event has. *)
Theorem builder_topics_fresh `{Codec} abi b :
  EventFilterBuilder_init abi = Ok b →
  anonymous abi = false →
  builder_topics b = Ok [PyStr (to_hex (event_abi_to_log_topic abi))].
Proof.
  intros Hinit Hanon.
  pose proof (EventFilterBuilder_init_fresh abi b Hinit) as Hfresh.
  apply EventFilterBuilder_init_Ok in Hinit as (pairs & _ & Ht & _).
  rewrite builder_topics_eq, Ht. unfold _initial_event_topic.
  rewrite Hanon. simpl. rewrite normalize_topic_list_wildcards; [done|].
  unfold arg_topics. apply Forall_fmap.
  eapply Forall_impl; [exact Hfresh|]. intros kv Hkv. simpl.
  rewrite Hkv. by right.
Qed.

Lemma builder_topics_fresh_witness :
  ∃ b, EventFilterBuilder_init string_event_abi = Ok b
       ∧ builder_topics b
         = Ok [PyStr (to_hex (event_abi_to_log_topic string_event_abi))].
Proof.
  eexists. split; [reflexivity|].
  exact (builder_topics_fresh string_event_abi _ eq_refl eq_refl).
Defined.

Lemma builder_topics_named_witness :
  ∃ b, builder_reachable string_event_abi b
       ∧ length (normalize_topic_list (arg_topics b)) ≤ 1.
Proof.
  eexists. split.
  - apply builder_after_match_single with (key := "s") (value := PyStr "pizza").
    apply builder_init. reflexivity.
  - exact (proj2 (builder_topics_named string_event_abi _
                    (builder_after_match_single string_event_abi _ "s"
                       (PyStr "pizza")
                       (builder_init string_event_abi _ eq_refl))
                    eq_refl)).
Defined.

(** [filter_params] raises what [topics] raises; otherwise it holds
    [topics] under its key, each of [fromBlock], [toBlock] and [address]
    that is not [None] under its key, and nothing else: no entry of the
    emitted record is [None]. *)
Theorem filter_params_spec `{Codec} (b : EventFilterBuilder)
    (fromBlock toBlock address : pyval) :
  match builder_topics b with
  | Raise e => filter_params b fromBlock toBlock address = Raise e
  | Ok topics =>
      ∃ params,
        filter_params b fromBlock toBlock address = Ok params
        ∧ Forall (λ kv, kv.2 ≠ PyNone) params
        ∧ dict_get params "topics" = Some (PyList topics)
        ∧ dict_get params "fromBlock"
          = (if is_None fromBlock then None else Some fromBlock)
        ∧ dict_get params "toBlock"
          = (if is_None toBlock then None else Some toBlock)
        ∧ dict_get params "address"
          = (if is_None address then None else Some address)
        ∧ params.*1 ⊆ ["topics"; "fromBlock"; "toBlock"; "address"]
  end.
Proof.
  unfold filter_params.
  destruct (builder_topics b) as [topics|e]; simpl; [|done].
  eexists. split; [reflexivity|]. unfold valfilter.
  assert (∀ x, x ≠ PyNone ↔ negb (is_None x) = true) as Hnot.
  { intros x. destruct x; simpl; split; done. }
  split; [|split; [|split; [|split; [|split]]]].
  - apply Forall_forall. intros kv Hkv.
    apply list_elem_of_filter in Hkv as [Hkv _]. by apply Hnot.
  - rewrite filter_cons. simpl. done.
  - rewrite !filter_cons, filter_nil. simpl.
    destruct (is_None fromBlock), (is_None toBlock), (is_None address);
      reflexivity.
  - rewrite !filter_cons, filter_nil. simpl.
    destruct (is_None fromBlock), (is_None toBlock), (is_None address);
      reflexivity.
  - rewrite !filter_cons, filter_nil. simpl.
    destruct (is_None fromBlock), (is_None toBlock), (is_None address);
      reflexivity.
  - intros k Hk. apply list_elem_of_fmap in Hk as (kv & -> & Hkv).
    apply list_elem_of_filter in Hkv as [_ Hkv].
    apply list_elem_of_In in Hkv. simpl in Hkv.
    destruct Hkv as [<-|[<-|[<-|[<-|[]]]]]; apply list_elem_of_In; simpl;
      auto.
Qed.

(** ** Transaction helpers *)

Lemma dict_get_dict_set {A} (d : list (string * A)) k v k' :
  dict_get (dict_set d k v) k'
  = if decide (k' = k) then Some v else dict_get d k'.
Proof.
  induction d as [|[k0 v0] d IH]; simpl.
  - destruct (decide (k = k')) as [->|Hne].
    + by rewrite decide_True.
    + by rewrite decide_False by congruence.
  - destruct (decide (k0 = k)) as [->|Hne]; simpl.
    + destruct (decide (k = k')) as [->|Hne'].
      * by rewrite decide_True.
      * by rewrite decide_False by congruence.
    + destruct (decide (k0 = k')) as [->|Hne'].
      * by rewrite decide_False.
      * apply IH.
Qed.

Lemma dict_get_None {A} (d : list (string * A)) k :
  k ∉ d.*1 → dict_get d k = None.
Proof.
  induction d as [|[k0 v0] d IH]; simpl; [done|].
  intros Hk. apply not_elem_of_cons in Hk as [Hne Hk].
  rewrite decide_False by congruence. by apply IH.
Qed.

Lemma dict_get_Some_key {A} (d : list (string * A)) k v :
  dict_get d k = Some v → (k, v) ∈ d.
Proof.
  induction d as [|[k0 v0] d IH]; simpl; [done|].
  destruct (decide (k0 = k)) as [->|Hne].
  - intros [= ->]. left.
  - intros Hd. right. by apply IH.
Qed.

(** Updating with a dict: its entries win, the others stay. *)
Lemma dict_get_merge (d1 d2 : list (string * pyval)) k :
  NoDup d2.*1 →
  dict_get (merge d1 d2) k
  = match dict_get d2 k with Some v => Some v | None => dict_get d1 k end.
Proof.
  unfold merge. revert d1.
  induction d2 as [|[k0 v0] d2 IH]; intros d1 Hnd; simpl; [done|].
  apply NoDup_cons in Hnd as [Hk0 Hnd]. rewrite IH by done.
  rewrite dict_get_dict_set.
  destruct (decide (k0 = k)) as [->|Hne].
  - rewrite dict_get_None by done. by rewrite decide_True.
  - rewrite decide_False by congruence. done.
Qed.

(** The comprehension of [extract_valid_transaction_params]: the entries
    of [d] at the given keys. *)
Lemma dict_get_extracted_in (d : list (string * pyval))
    (keys : list string) k :
  k ∈ keys →
  dict_get (omap (λ key, (key,.) <$> dict_get d key) keys) k = dict_get d k.
Proof.
  induction keys as [|key keys IH]; intros Hin.
  - by apply elem_of_nil in Hin.
  - change (omap (λ key, (key,.) <$> dict_get d key) (key :: keys))
      with (match (key,.) <$> dict_get d key with
            | Some kv => kv :: omap (λ key, (key,.) <$> dict_get d key) keys
            | None => omap (λ key, (key,.) <$> dict_get d key) keys
            end).
    destruct (decide (key = k)) as [->|Hne].
    + destruct (dict_get d k) as [v|] eqn:Hv; simpl.
      * by rewrite decide_True.
      * destruct (decide (k ∈ keys)) as [Hin'|Hnin];
          [by rewrite IH|].
        apply dict_get_None. intros Hk.
        apply list_elem_of_fmap in Hk as ([k' v'] & -> & Hkv).
        apply list_elem_of_omap in Hkv as (key & Hkey & Hkv).
        destruct (dict_get d key); simpl in Hkv; [|done].
        injection Hkv as <- <-. done.
    + apply elem_of_cons in Hin as [->|Hin]; [done|].
      destruct (dict_get d key) as [v|]; simpl.
      * rewrite decide_False by done. by apply IH.
      * by apply IH.
Qed.

Lemma dict_get_extracted_out (d : list (string * pyval))
    (keys : list string) k :
  k ∉ keys →
  dict_get (omap (λ key, (key,.) <$> dict_get d key) keys) k = None.
Proof.
  intros Hnin. apply dict_get_None. intros Hk.
  apply list_elem_of_fmap in Hk as ([k' v'] & -> & Hkv).
  apply list_elem_of_omap in Hkv as (key & Hkey & Hkv).
  destruct (dict_get d key); simpl in Hkv; [|done].
  injection Hkv as <- <-. done.
Qed.

Lemma extracted_keys (d : list (string * pyval)) (keys : list string) :
  Forall (λ kv, kv.1 ∈ keys)
    (omap (λ key, (key,.) <$> dict_get d key) keys).
Proof.
  apply Forall_forall. intros [k v] Hkv.
  apply list_elem_of_omap in Hkv as (key & Hkey & Hkv).
  destruct (dict_get d key); simpl in Hkv; [|done].
  by injection Hkv as <- <-.
Qed.

Lemma assert_valid_transaction_params_Return
    (transaction_params : list (string * pyval)) :
  assert_valid_transaction_params transaction_params = Return tt
  ↔ Forall (λ kv, kv.1 ∈ VALID_TRANSACTION_PARAMS) transaction_params.
Proof.
  induction transaction_params as [|[param v] rest IH]; simpl.
  - split; [constructor | done].
  - case_bool_decide as Hp.
    + split; [done|]. intros Hall. apply Forall_cons in Hall as [Hin _].
      done.
    + rewrite IH. split.
      * intros Hall. constructor; [|done]. simpl.
        by destruct (decide (param ∈ VALID_TRANSACTION_PARAMS)).
      * intros Hall. by apply Forall_cons in Hall as [_ ?].
Qed.

(** [fill_nonce] leaves a transaction that has a nonce, or has no sender,
    as it is; otherwise it assigns the sender's pending transaction count
    to [nonce] and changes no other entry.  A transaction it returns is
    returned unchanged by a second call, which asks the node nothing. *)
Theorem fill_nonce_spec `{Web3} (transaction : list (string * pyval)) :
  (dict_in "nonce" transaction = true ∨ dict_in "from" transaction = false →
   fill_nonce transaction = Return transaction)
  ∧ (dict_in "from" transaction = true →
     dict_in "nonce" transaction = false →
     ∀ count,
       eth_getTransactionCount (dict_get_or_None transaction "from")
       = Some count →
       ∃ filled,
         fill_nonce transaction = Return filled
         ∧ ∀ k, dict_get filled k
                = if decide (k = "nonce") then Some (PyInt count)
                  else dict_get transaction k)
  ∧ (∀ filled (node : Web3),
       fill_nonce transaction = Return filled →
       @fill_nonce node filled = Return filled).
Proof.
  split; [|split].
  - unfold fill_nonce. intros [-> | ->]; [|done].
    by rewrite andb_false_r.
  - intros Hfrom Hnonce count Hcount. unfold fill_nonce.
    rewrite Hfrom, Hnonce, Hcount. simpl. eexists. split; [done|].
    intros k. apply dict_get_dict_set.
  - intros filled node. unfold fill_nonce.
    destruct (dict_in "from" transaction) eqn:Hfrom; simpl.
    + destruct (dict_in "nonce" transaction) eqn:Hnonce; simpl.
      * intros [= <-]. by rewrite Hfrom, Hnonce.
      * destruct (eth_getTransactionCount _) as [count|]; simpl; [|done].
        intros [= <-].
        assert (dict_in "nonce" (assoc transaction "nonce" (PyInt count))
                = true) as ->.
        { unfold dict_in, assoc. by rewrite dict_get_dict_set. }
        by rewrite andb_false_r.
    + intros [= <-]. by rewrite Hfrom.
Qed.

(** [coro_get_buffered_gas_estimate] refuses an estimate above the gas
    limit of the latest block; otherwise it returns the smaller of that
    limit and the estimate plus the buffer, so never more than the limit
    and, for a buffer that is not negative, never less than the estimate. *)
Theorem coro_get_buffered_gas_estimate_spec `{Web3}
    (transaction : list (string * pyval)) (gas_buffer : Z)
    (gas_estimate number : Z) (block : Block) :
  eth_estimateGas transaction = Some gas_estimate →
  eth_blockNumber = Some number →
  eth_getBlock (PyInt number) = Some block →
  ((gas_estimate > gasLimit block)%Z →
   coro_get_buffered_gas_estimate transaction gas_buffer
   = Throw (ValueError_not_deployable gas_estimate (gasLimit block)))
  ∧ ((gas_estimate ≤ gasLimit block)%Z →
     ∃ gas,
       coro_get_buffered_gas_estimate transaction gas_buffer = Return gas
       ∧ gas = Z.min (gasLimit block) (gas_estimate + gas_buffer)
       ∧ (gas ≤ gasLimit block)%Z
       ∧ ((0 ≤ gas_buffer)%Z → (gas_estimate ≤ gas)%Z)
       ∧ ((gas_estimate + gas_buffer ≤ gasLimit block)%Z →
          gas = (gas_estimate + gas_buffer)%Z)
       ∧ ((gasLimit block ≤ gas_estimate + gas_buffer)%Z →
          gas = gasLimit block)).
Proof.
  intros Hest Hnum Hblock.
  unfold coro_get_buffered_gas_estimate, coro_get_block_gas_limit.
  rewrite Hest, Hnum. simpl. rewrite Hblock. simpl. split.
  - intros Hgt. by rewrite bool_decide_eq_true_2.
  - intros Hle. rewrite bool_decide_eq_false_2 by lia.
    eexists. split; [done|]. split; [done|]. lia.
Qed.

Lemma coro_get_buffered_gas_estimate_spec_witness :
  eth_estimateGas [("from", PyStr "0xa")] = Some 21000%Z
  ∧ coro_get_buffered_gas_estimate [("from", PyStr "0xa")] 100000
    = Return 121000%Z.
Proof.
  split; [reflexivity|].
  destruct (proj2 (coro_get_buffered_gas_estimate_spec
                     (H := StandinWeb3.web3)
                     [("from", PyStr "0xa")] 100000 21000 100
                     {| gasLimit := 8000000 |} eq_refl eq_refl eq_refl)
              ltac:(simpl; lia)) as (gas & -> & -> & _).
  reflexivity.
Defined.

(** For [data] and [input] that are not both lists or tuples, so that
    their comparison is Python's: [extract_valid_transaction_params] keeps
    the entries at the valid parameter names and drops the others; [data]
    is taken from [input] when [data] is missing or [None] and [input] is
    not.  It raises exactly when [data] and [input] are both given and
    differ, and its last branch is never reached. *)
Theorem extract_valid_transaction_params_spec
    (transaction_params : list (string * pyval)) :
  let data := dict_get_or_None transaction_params "data" in
  let input := dict_get_or_None transaction_params "input" in
  is_list_like data && is_list_like input = false →
  extract_valid_transaction_params transaction_params
  ≠ Throw Exception_unreachable
  ∧ (∀ e, extract_valid_transaction_params transaction_params = Throw e
          ↔ data ≠ PyNone ∧ input ≠ PyNone ∧ py_eq data input = false
            ∧ e = AttributeError_input_and_data input data)
  ∧ (∀ extracted,
       extract_valid_transaction_params transaction_params = Return extracted →
       ∀ k, dict_get extracted k
            = if decide (k = "data")
              then (if is_None data && negb (is_None input)
                    then Some input
                    else dict_get transaction_params "data")
              else if decide (k ∈ VALID_TRANSACTION_PARAMS)
                   then dict_get transaction_params k
                   else None).
Proof.
  intros data input _. unfold extract_valid_transaction_params.
  set (extracted_params :=
         omap (λ key, (key,.) <$> dict_get transaction_params key)
           VALID_TRANSACTION_PARAMS).
  assert ("data" ∈ VALID_TRANSACTION_PARAMS) as Hdata.
  { unfold VALID_TRANSACTION_PARAMS. do 5 right. left. }
  assert (dict_get extracted_params "data"
          = dict_get transaction_params "data") as Hget.
  { by apply dict_get_extracted_in. }
  assert (dict_get_or_None extracted_params "data" = data) as ->.
  { unfold dict_get_or_None, data. by rewrite Hget. }
  fold input.
  assert (∀ k, dict_get extracted_params k
               = if decide (k ∈ VALID_TRANSACTION_PARAMS)
                 then dict_get transaction_params k else None) as Hext.
  { intros k. case_decide.
    - by apply dict_get_extracted_in.
    - by apply dict_get_extracted_out. }
  assert (∀ v, is_None v = false ↔ v ≠ PyNone) as Hnone.
  { intros v. destruct v; simpl; split; done. }
  destruct (is_None data) eqn:Hd; simpl.
  - apply is_None_true in Hd as Hd'.
    destruct (is_None input) eqn:Hi; simpl.
    + split; [done|]. split.
      * intros e. split; [done|]. by intros (? & _).
      * intros extracted [= <-] k. rewrite Hext.
        destruct (decide (k = "data")) as [->|Hne]; [|done].
        by rewrite decide_True.
    + split; [done|]. split.
      * intros e. split; [done|]. by intros (? & _).
      * intros extracted [= <-] k. unfold assoc.
        rewrite dict_get_dict_set. case_decide; [done|]. apply Hext.
  - apply Hnone in Hd as Hd'.
    destruct (is_None input) eqn:Hi; simpl.
    + split; [done|]. split.
      * intros e. split; [done|]. intros (_ & Hin & _).
        apply is_None_true in Hi. done.
      * intros extracted [= <-] k. rewrite Hext.
        destruct (decide (k = "data")) as [->|Hne]; [|done].
        by rewrite decide_True.
    + apply Hnone in Hi as Hi'.
      destruct (py_eq data input) eqn:Heq; simpl.
      * split; [done|]. split.
        -- intros e. split; [done|]. by intros (_ & _ & ? & _).
        -- intros extracted [= <-] k. rewrite Hext.
           destruct (decide (k = "data")) as [->|Hne]; [|done].
           by rewrite decide_True.
      * split; [done|]. split; [|done].
        intros e. split.
        -- by intros [= <-].
        -- by intros (_ & _ & _ & ->).
Qed.

Lemma extract_valid_transaction_params_spec_witness :
  is_list_like
    (dict_get_or_None [("data", PyStr "0x01"); ("input", PyStr "0x02")]
       "data")
  && is_list_like
       (dict_get_or_None [("data", PyStr "0x01"); ("input", PyStr "0x02")]
          "input") = false
  ∧ extract_valid_transaction_params
      [("data", PyStr "0x01"); ("input", PyStr "0x02")]
    = Throw (AttributeError_input_and_data (PyStr "0x02") (PyStr "0x01")).
Proof.
  split; [reflexivity|].
  apply (proj1 (proj2 (extract_valid_transaction_params_spec
                         [("data", PyStr "0x01"); ("input", PyStr "0x02")]
                         eq_refl))).
  repeat split; discriminate.
Defined.

(** [assert_valid_transaction_params] passes exactly when every key is a
    valid parameter name; otherwise it raises for the first key that is
    not, however the later ones are. *)
Theorem assert_valid_transaction_params_spec
    (transaction_params : list (string * pyval)) :
  (assert_valid_transaction_params transaction_params = Return tt
   ↔ Forall (λ kv, kv.1 ∈ VALID_TRANSACTION_PARAMS) transaction_params)
  ∧ (∀ e, assert_valid_transaction_params transaction_params = Throw e
          ↔ ∃ valid param value rest,
              transaction_params = valid ++ (param, value) :: rest
              ∧ Forall (λ kv, kv.1 ∈ VALID_TRANSACTION_PARAMS) valid
              ∧ (param ∉ VALID_TRANSACTION_PARAMS)
              ∧ e = ValueError_invalid_parameter param).
Proof.
  split; [apply assert_valid_transaction_params_Return|].
  induction transaction_params as [|[param v] rest IH]; intros e.
  - simpl. split; [done|].
    intros (valid & ? & ? & ? & Heq & _). by destruct valid.
  - simpl. case_bool_decide as Hp.
    + split.
      * intros [= <-]. exists [], param, v, rest. by repeat split.
      * intros (valid & param' & v' & rest' & Heq & Hvalid & Hp' & ->).
        destruct valid as [|[k0 v0] valid].
        -- simpl in Heq. by injection Heq as <- <- <-.
        -- simpl in Heq. injection Heq as <- <- ->.
           apply Forall_cons in Hvalid as [Hin _]. done.
    + rewrite IH. split.
      * intros (valid & param' & v' & rest' & -> & Hvalid & Hp' & ->).
        exists ((param, v) :: valid), param', v', rest'.
        repeat split; try done. by constructor.
      * intros (valid & param' & v' & rest' & Heq & Hvalid & Hp' & ->).
        destruct valid as [|[k0 v0] valid].
        -- simpl in Heq. injection Heq as <- <- <-.
           done.
        -- simpl in Heq. injection Heq as <- <- ->.
           apply Forall_cons in Hvalid as [_ Hvalid].
           by exists valid, param', v', rest'.
Qed.

(** What [extract_valid_transaction_params] returns always passes
    [assert_valid_transaction_params]. *)
Theorem extract_then_assert_valid
    (transaction_params extracted : list (string * pyval)) :
  extract_valid_transaction_params transaction_params = Return extracted →
  assert_valid_transaction_params extracted = Return tt.
Proof.
  intros Hext. apply assert_valid_transaction_params_Return.
  pose proof (extracted_keys transaction_params VALID_TRANSACTION_PARAMS)
    as Hkeys.
  unfold extract_valid_transaction_params in Hext.
  repeat case_match; simplify_eq; try done.
  unfold assoc. apply Forall_forall. intros kv Hkv.
  apply dict_set_entries in Hkv as [->|Hkv].
  - simpl. unfold VALID_TRANSACTION_PARAMS. do 5 right. left.
  - by apply (proj1 (Forall_forall _ _) Hkeys).
Qed.

Lemma extract_then_assert_valid_witness :
  extract_valid_transaction_params
    [("to", PyStr "0xb"); ("input", PyStr "0x01"); ("extra", PyInt 1)]
  = Return [("to", PyStr "0xb"); ("data", PyStr "0x01")]
  ∧ assert_valid_transaction_params
      [("to", PyStr "0xb"); ("data", PyStr "0x01")] = Return tt.
Proof.
  split; [reflexivity|].
  exact (extract_then_assert_valid
           [("to", PyStr "0xb"); ("input", PyStr "0x01"); ("extra", PyInt 1)]
           _ eq_refl).
Defined.

Lemma dict_get_filter_keys (f : string → bool) (d : list (string * pyval)) k :
  dict_get (filter (λ kv, f kv.1 = false) d) k
  = if f k then None else dict_get d k.
Proof.
  induction d as [|[k0 v0] d IH].
  - simpl. by destruct (f k).
  - rewrite filter_cons. simpl. destruct (f k0) eqn:Hk0; simpl.
    + rewrite IH. destruct (decide (k0 = k)) as [->|Hne]; [|done].
      by rewrite Hk0.
    + destruct (decide (k0 = k)) as [->|Hne]; [by rewrite Hk0 | apply IH].
Qed.

Lemma dict_in_false {A} (d : list (string * A)) k :
  dict_in k d = false ↔ dict_get d k = None.
Proof.
  unfold dict_in. destruct (dict_get d k) as [v|].
  - split; [|done]. intros Hf. apply bool_decide_eq_false in Hf.
    by destruct Hf.
  - split; [done|]. intros _. apply bool_decide_eq_false. by intros [? ?].
Qed.

(** [coro_fill_transaction_defaults] keeps every entry of the transaction
    and adds the default of each of [value], [data], [gas], [gasPrice] and
    [chainId] that the transaction leaves out: 0, the empty bytes, the gas
    estimate, the generated gas price or else the node's, and the chain id.
    No other key is added. *)
Theorem coro_fill_transaction_defaults_spec `{Web3}
    (transaction filled : list (string * pyval)) :
  NoDup transaction.*1 →
  coro_fill_transaction_defaults transaction = Return filled →
  (∀ k v, dict_get transaction k = Some v → dict_get filled k = Some v)
  ∧ (dict_get transaction "value" = None →
     dict_get filled "value" = Some (PyInt 0))
  ∧ (dict_get transaction "data" = None →
     dict_get filled "data" = Some (PyBytes []))
  ∧ (dict_get transaction "gas" = None →
     ∃ gas, eth_estimateGas transaction = Some gas
            ∧ dict_get filled "gas" = Some (PyInt gas))
  ∧ (dict_get transaction "gasPrice" = None →
     ∃ price,
       dict_get filled "gasPrice" = Some (PyInt price)
       ∧ ((eth_generateGasPrice transaction = Some (Some price)
           ∧ price ≠ 0%Z)
          ∨ (eth_gasPrice = Some price
             ∧ ∃ generated,
                 eth_generateGasPrice transaction = Some generated
                 ∧ truthy generated = false)))
  ∧ (dict_get transaction "chainId" = None →
     dict_get filled "chainId" = net_chainId)
  ∧ (∀ k, k ∉ ["value"; "data"; "gas"; "gasPrice"; "chainId"] →
          dict_get filled k = dict_get transaction k).
Proof.
  intros Hnd. unfold coro_fill_transaction_defaults.
  destruct (eth_estimateGas transaction) as [gas|] eqn:Hgas; simpl; [|done].
  destruct (eth_generateGasPrice transaction) as [generated|] eqn:Hgen;
    simpl; [|done].
  destruct (if truthy generated then Return (default 0%Z generated)
            else rpc "gasPrice" eth_gasPrice) as [price|] eqn:Hprice;
    simpl; [|done].
  destruct net_chainId as [chainId|] eqn:Hchain; simpl; [|done].
  intros [= <-].
  set (defaults := [ ("value", PyInt 0); ("data", PyBytes []);
                     ("gas", PyInt gas); ("gasPrice", PyInt price);
                     ("chainId", chainId) ]).
  assert (∀ k, dict_get
                 (merge (filter (λ kv, dict_in kv.1 transaction = false)
                           defaults) transaction) k
               = match dict_get transaction k with
                 | Some v => Some v
                 | None => dict_get defaults k
                 end) as Hget.
  { intros k. rewrite dict_get_merge by done.
    destruct (dict_get transaction k) as [v|] eqn:Hk; [done|].
    rewrite (dict_get_filter_keys (λ key, dict_in key transaction)).
    by rewrite (proj2 (dict_in_false transaction k) Hk). }
  split; [|split; [|split; [|split; [|split; [|split]]]]].
  - intros k v Hk. by rewrite Hget, Hk.
  - intros Hk. by rewrite Hget, Hk.
  - intros Hk. by rewrite Hget, Hk.
  - intros Hk. exists gas. split; [done|]. by rewrite Hget, Hk.
  - intros Hk. exists price. split; [by rewrite Hget, Hk|].
    destruct (truthy generated) eqn:Htruthy.
    + left. destruct generated as [g|]; [|done]. simpl in Hprice, Htruthy.
      injection Hprice as <-. split; [done|].
      by apply bool_decide_eq_true in Htruthy.
    + right. destruct eth_gasPrice as [p|]; simpl in Hprice; [|done].
      injection Hprice as <-. split; [done|]. by exists generated.
  - intros Hk. by rewrite Hget, Hk.
  - intros k Hk. rewrite Hget.
    destruct (dict_get transaction k) as [v|]; [done|].
    apply dict_get_None. simpl. done.
Qed.

Lemma coro_fill_transaction_defaults_spec_witness :
  NoDup [("from", PyStr "0xa"); ("gas", PyInt 5)].*1
  ∧ ∃ filled,
      coro_fill_transaction_defaults
        [("from", PyStr "0xa"); ("gas", PyInt 5)] = Return filled
      ∧ dict_get filled "value" = Some (PyInt 0).
Proof.
  assert (NoDup [("from", PyStr "0xa"); ("gas", PyInt 5)].*1) as Hnd.
  { simpl. apply NoDup_cons. split.
    - intros Hin. apply list_elem_of_singleton in Hin. discriminate.
    - apply NoDup_singleton. }
  split; [exact Hnd|].
  eexists. split; [reflexivity|].
  exact (proj1 (proj2 (coro_fill_transaction_defaults_spec
                         (H := StandinWeb3.web3)
                         [("from", PyStr "0xa"); ("gas", PyInt 5)] _
                         Hnd eq_refl)) eq_refl).
Defined.

(** [coro_fill_transaction_defaults] asks the node for the gas estimate,
    the gas price and the chain id whatever the transaction specifies: it
    raises exactly when one of these calls does, the first of them in the
    order of the dict literal. *)
Theorem coro_fill_transaction_defaults_raises `{Web3}
    (transaction : list (string * pyval)) (e : tx_exn) :
  coro_fill_transaction_defaults transaction = Throw e
  ↔ (eth_estimateGas transaction = None ∧ e = Web3Error "estimateGas")
    ∨ (is_Some (eth_estimateGas transaction)
       ∧ ((eth_generateGasPrice transaction = None
           ∧ e = Web3Error "generateGasPrice")
          ∨ ∃ generated,
              eth_generateGasPrice transaction = Some generated
              ∧ ((truthy generated = false ∧ eth_gasPrice = None
                  ∧ e = Web3Error "gasPrice")
                 ∨ ((truthy generated = true ∨ is_Some eth_gasPrice)
                    ∧ net_chainId = None ∧ e = Web3Error "chainId")))).
Proof.
  unfold coro_fill_transaction_defaults.
  destruct (eth_estimateGas transaction) as [gas|]; simpl.
  2:{ split; [intros [= <-]; by left|]. intros Hc.
      repeat match goal with
             | H : _ ∨ _ |- _ => destruct H
             | H : _ ∧ _ |- _ => destruct H
             | H : ∃ _, _ |- _ => destruct H
             | H : is_Some None |- _ => by destruct H
             end; simplify_eq; done. }
  destruct (eth_generateGasPrice transaction) as [generated|]; simpl.
  2:{ split.
      - intros [= <-]. right. split; [by eexists|]. by left.
      - intros Hc.
        repeat match goal with
               | H : _ ∨ _ |- _ => destruct H
               | H : _ ∧ _ |- _ => destruct H
               | H : ∃ _, _ |- _ => destruct H
               | H : is_Some None |- _ => by destruct H
               end; simplify_eq; done. }
  destruct (truthy generated) eqn:Htruthy;
    destruct eth_gasPrice as [price|] eqn:Hprice;
    destruct net_chainId as [chainId|] eqn:Hchain; simpl;
    (split;
     [ try done; intros [= <-]; right; (split; [by eexists|]); right;
       exists generated; (split; [done|]);
       first [ by left
             | right; split; [by left | done]
             | right; split; [right; by eexists | done] ]
     | intros Hc;
       repeat match goal with
              | H : _ ∨ _ |- _ => destruct H
              | H : _ ∧ _ |- _ => destruct H
              | H : ∃ _, _ |- _ => destruct H
              | H : is_Some None |- _ => by destruct H
              end; simplify_eq; try done; congruence ]).
Qed.

Lemma dict_in_assoc (d : list (string * pyval)) k v k' :
  dict_in k' (assoc d k v) = if decide (k' = k) then true else dict_in k' d.
Proof.
  unfold dict_in, assoc. rewrite dict_get_dict_set.
  case_decide; [|done]. apply bool_decide_eq_true_2. by eexists.
Qed.

(** [coro_prepare_replacement_transaction] refuses a transaction that has
    been mined before anything else.  What it returns has the nonce of the
    pending transaction and a gas price: the supplied one, which then
    exceeds the pending gas price, or else at least the minimum computed
    from the pending gas price; every other entry is the caller's. *)
Theorem coro_prepare_replacement_transaction_spec `{Web3}
    (current_transaction : Transaction)
    (new_transaction : list (string * pyval)) :
  (tx_blockHash current_transaction ≠ PyNone →
   coro_prepare_replacement_transaction current_transaction new_transaction
   = Throw (ValueError_already_mined (tx_hash current_transaction)))
  ∧ (∀ prepared,
       coro_prepare_replacement_transaction current_transaction
         new_transaction = Return prepared →
       tx_blockHash current_transaction = PyNone
       ∧ (∃ nonce,
            dict_get prepared "nonce" = Some nonce
            ∧ py_eq nonce (PyInt (tx_nonce current_transaction)) = true)
       ∧ (∃ price,
            (if dict_in "gasPrice" new_transaction
             then dict_get prepared "gasPrice"
                  = dict_get new_transaction "gasPrice"
                  ∧ py_int (dict_get_or_None prepared "gasPrice")
                    = Return price
                  ∧ (price > tx_gasPrice current_transaction)%Z
             else dict_get prepared "gasPrice" = Some (PyInt price)
                  ∧ (minimum_gas_price (tx_gasPrice current_transaction)
                     ≤ price)%Z))
       ∧ (∀ k, k ≠ "nonce" → k ≠ "gasPrice" →
               dict_get prepared k = dict_get new_transaction k)).
Proof.
  unfold coro_prepare_replacement_transaction. split.
  - intros Hmined. destruct (tx_blockHash current_transaction); done.
  - intros prepared.
    destruct (is_None (tx_blockHash current_transaction)) eqn:Hmined;
      simpl; [|done].
    apply is_None_true in Hmined.
    set (with_nonce :=
           if negb (dict_in "nonce" new_transaction)
           then assoc new_transaction "nonce"
                  (PyInt (tx_nonce current_transaction))
           else new_transaction).
    destruct (dict_in "nonce" new_transaction
              && negb (py_eq (dict_get_or_None new_transaction "nonce")
                         (PyInt (tx_nonce current_transaction))))
      eqn:Hmismatch; [done|].
    assert (∃ nonce,
              dict_get with_nonce "nonce" = Some nonce
              ∧ py_eq nonce (PyInt (tx_nonce current_transaction)) = true)
      as Hnonce.
    { unfold with_nonce.
      destruct (dict_in "nonce" new_transaction) eqn:Hin; simpl.
      - simpl in Hmismatch. apply negb_false_iff in Hmismatch.
        unfold dict_in in Hin. apply bool_decide_eq_true in Hin as [n Hn].
        exists n. split; [done|]. unfold dict_get_or_None in Hmismatch.
        by rewrite Hn in Hmismatch.
      - eexists. split.
        + unfold assoc. by rewrite dict_get_dict_set.
        + simpl. by apply bool_decide_eq_true_2. }
    assert (∀ k, k ≠ "nonce" →
                 dict_get with_nonce k = dict_get new_transaction k)
      as Hothers.
    { intros k Hk. unfold with_nonce.
      destruct (dict_in "nonce" new_transaction); simpl; [done|].
      unfold assoc. rewrite dict_get_dict_set. by rewrite decide_False. }
    assert (dict_in "gasPrice" with_nonce
            = dict_in "gasPrice" new_transaction) as Hin.
    { unfold dict_in. by rewrite Hothers. }
    rewrite Hin.
    destruct (dict_in "gasPrice" new_transaction) eqn:Hsupplied.
    + destruct (py_int (dict_get_or_None with_nonce "gasPrice"))
        as [supplied|] eqn:Hint; simpl; [|done].
      case_bool_decide as Hle; [done|]. intros [= <-].
      split; [done|]. split; [exact Hnonce|]. split.
      * exists supplied. split; [by apply Hothers|]. split; [done|]. lia.
      * intros k Hk _. by apply Hothers.
    + destruct (eth_generateGasPrice with_nonce) as [generated|];
        simpl; [|done].
      destruct (truthy generated
                && bool_decide
                     (default 0 generated
                      > minimum_gas_price (tx_gasPrice current_transaction))%Z)
        eqn:Hgen; intros [= <-].
      * split; [done|]. split; [|split].
        -- destruct Hnonce as (n & Hn & Heq). exists n. split; [|done].
           unfold assoc. rewrite dict_get_dict_set. by rewrite decide_False.
        -- eexists. split.
           ++ unfold assoc. by rewrite dict_get_dict_set.
           ++ apply andb_true_iff in Hgen as [_ Hgt].
              apply bool_decide_eq_true in Hgt. lia.
        -- intros k Hk1 Hk2. unfold assoc. rewrite dict_get_dict_set.
           rewrite decide_False by done. by apply Hothers.
      * split; [done|]. split; [|split].
        -- destruct Hnonce as (n & Hn & Heq). exists n. split; [|done].
           unfold assoc. rewrite dict_get_dict_set. by rewrite decide_False.
        -- eexists. split.
           ++ unfold assoc. by rewrite dict_get_dict_set.
           ++ lia.
        -- intros k Hk1 Hk2. unfold assoc. rewrite dict_get_dict_set.
           rewrite decide_False by done. by apply Hothers.
Qed.

(** A supplied nonce that differs from the pending one, and a supplied gas
    price that does not exceed the pending one, are refused, in this
    order, once the pending transaction is known not to be mined. *)
Theorem coro_prepare_replacement_transaction_refuses `{Web3}
    (current_transaction : Transaction)
    (new_transaction : list (string * pyval)) :
  tx_blockHash current_transaction = PyNone →
  (∀ nonce,
     dict_get new_transaction "nonce" = Some nonce →
     py_eq nonce (PyInt (tx_nonce current_transaction)) = false →
     coro_prepare_replacement_transaction current_transaction new_transaction
     = Throw ValueError_nonce_mismatch)
  ∧ (∀ supplied price,
       (∀ nonce, dict_get new_transaction "nonce" = Some nonce →
                 py_eq nonce (PyInt (tx_nonce current_transaction)) = true) →
       dict_get new_transaction "gasPrice" = Some supplied →
       py_int supplied = Return price →
       (price ≤ tx_gasPrice current_transaction)%Z →
       coro_prepare_replacement_transaction current_transaction
         new_transaction
       = Throw ValueError_gas_price_too_low).
Proof.
  intros Hmined. unfold coro_prepare_replacement_transaction.
  rewrite Hmined. simpl. split.
  - intros nonce Hn Hne.
    assert (dict_in "nonce" new_transaction = true) as ->.
    { unfold dict_in. rewrite Hn. by apply bool_decide_eq_true_2. }
    unfold dict_get_or_None. rewrite Hn. simpl. by rewrite Hne.
  - intros supplied price Hnonce Hgp Hint Hle.
    destruct (dict_get new_transaction "nonce") as [nonce|] eqn:Hn.
    + assert (dict_in "nonce" new_transaction = true) as ->.
      { unfold dict_in. rewrite Hn. by apply bool_decide_eq_true_2. }
      unfold dict_get_or_None at 1. rewrite Hn. simpl.
      rewrite (Hnonce nonce eq_refl). simpl.
      assert (dict_in "gasPrice" new_transaction = true) as ->.
      { unfold dict_in. rewrite Hgp. by apply bool_decide_eq_true_2. }
      unfold dict_get_or_None. rewrite Hgp. simpl. rewrite Hint. simpl.
      by rewrite bool_decide_eq_true_2.
    + assert (dict_in "nonce" new_transaction = false) as ->.
      { by apply dict_in_false. }
      simpl. rewrite dict_in_assoc. simpl.
      assert (dict_in "gasPrice" new_transaction = true) as ->.
      { unfold dict_in. rewrite Hgp. by apply bool_decide_eq_true_2. }
      unfold dict_get_or_None, assoc. rewrite dict_get_dict_set. simpl.
      rewrite Hgp. simpl. rewrite Hint. simpl.
      by rewrite bool_decide_eq_true_2.
Qed.

Lemma coro_prepare_replacement_transaction_refuses_witness :
  coro_prepare_replacement_transaction
    {| tx_blockHash := PyNone; tx_hash := PyStr "0x1";
       tx_nonce := 3; tx_gasPrice := 10 |}
    [("nonce", PyInt 4)]
  = Throw ValueError_nonce_mismatch.
Proof.
  exact (proj1 (coro_prepare_replacement_transaction_refuses
                  (H := StandinWeb3.web3)
                  {| tx_blockHash := PyNone; tx_hash := PyStr "0x1";
                     tx_nonce := 3; tx_gasPrice := 10 |}
                  [("nonce", PyInt 4)] eq_refl)
           (PyInt 4) eq_refl eq_refl).
Defined.

(** ** Filter builder: order of the positions *)

Section BuilderFacts3.
Context `{Codec}.

Lemma dict_replace_keys key af (d : list (string * ArgumentFilter)) :
  (dict_replace key af d).*1 = d.*1.
Proof.
  unfold dict_replace. induction d as [|[k v] d IH]; [done|].
  simpl. f_equal; [|exact IH]. by case_decide.
Qed.

Lemma builder_reachable_keys abi b :
  builder_reachable abi b →
  ∃ b0, EventFilterBuilder_init abi = Ok b0
        ∧ (indexed_args b).*1 = (indexed_args b0).*1
        ∧ (data_args b).*1 = (data_args b0).*1.
Proof.
  induction 1 as [b Hinit|b key value _ (b0 & Hinit & Hi & Hd)
                 |b key values _ (b0 & Hinit & Hi & Hd)].
  - by exists b.
  - exists b0. split; [done|]. unfold builder_match_single.
    destruct (dict_get (args b) key) as [af|]; [|done].
    destruct (match_single af value); [|done].
    simpl. by rewrite !dict_replace_keys.
  - exists b0. split; [done|]. unfold builder_match_any.
    destruct (dict_get (args b) key) as [af|]; [|done].
    destruct (match_any af values); [|done].
    simpl. by rewrite !dict_replace_keys.
Qed.

Lemma pairs_keys (items : list InputParameter)
    (pairs : list (string * ArgumentFilter)) :
  Forall2 (λ (item : InputParameter) (kv : string * ArgumentFilter),
             kv.1 = name item ∧ is_indexed kv.2 = indexed item)
    items pairs →
  pairs.*1 = map name items
  ∧ (valfilter is_indexed_arg pairs).*1
    = map name (filter (λ arg, indexed arg = true) items)
  ∧ (valfilter not_indexed pairs).*1
    = map name (filter (λ arg, indexed arg = false) items).
Proof.
  unfold valfilter, not_indexed, is_indexed_arg.
  induction 1 as [|item [k v] items pairs [Hk Hix] _ (IH1 & IH2 & IH3)];
    [done|].
  simpl in Hk, Hix. subst k. rewrite !filter_cons. simpl.
  rewrite Hix. split; [by f_equal|].
  destruct (indexed item); simpl; split; by f_equal.
Qed.

End BuilderFacts3.

(** For a descriptor with distinct parameter names the matchers of a
    builder stand in declaration order: the indexed ones under the names
    of the indexed inputs, one topic position each, and the others under
    the names of the non-indexed inputs. *)
Theorem builder_args_order `{Codec} abi b :
  builder_reachable abi b →
  NoDup (map name (inputs abi)) →
  (indexed_args b).*1 = get_abi_input_names (get_indexed_event_inputs abi)
  ∧ (data_args b).*1
    = get_abi_input_names (exclude_indexed_event_inputs abi)
  ∧ length (arg_topics b) = length (get_indexed_event_inputs abi).
Proof.
  intros Hr Hnd.
  apply builder_reachable_keys in Hr as (b0 & Hinit & Hi & Hd).
  apply EventFilterBuilder_init_Ok in Hinit as (pairs & Hpairs & _ & Hi0 & Hd0).
  apply pairs_keys in Hpairs as (Hkeys & Hik & Hdk).
  rewrite to_dict_NoDup in Hi0, Hd0 by (by rewrite Hkeys).
  assert ((indexed_args b).*1
          = get_abi_input_names (get_indexed_event_inputs abi)) as Hix.
  { by rewrite Hi, Hi0, Hik. }
  split; [exact Hix|]. split; [by rewrite Hd, Hd0, Hdk|].
  unfold arg_topics. rewrite length_map.
  rewrite <-(length_fmap fst (indexed_args b)), Hix.
  unfold get_abi_input_names. by rewrite length_map.
Qed.

Lemma builder_args_order_witness :
  NoDup (map name (inputs string_event_abi))
  ∧ ∃ b, builder_reachable string_event_abi b
         ∧ (indexed_args b).*1 = ["s"].
Proof.
  assert (NoDup (map name (inputs string_event_abi))) as Hnd.
  { simpl. apply NoDup_cons. split.
    - intros Hin. apply list_elem_of_singleton in Hin. discriminate.
    - apply NoDup_singleton. }
  split; [exact Hnd|].
  eexists. split.
  - apply builder_init. reflexivity.
  - exact (proj1 (builder_args_order string_event_abi _
                    (builder_init string_event_abi _ eq_refl) Hnd)).
Defined.

(** Matching a value on one argument changes the topic position of that
    argument, which becomes the one encoded value, and no other position. *)
Theorem builder_match_single_topics `{Codec} b key af value h :
  dict_get (args b) key = Some af →
  _encode af value = Ok h →
  ∀ i,
    arg_topics (builder_match_single b key value) !! i
    = if decide ((indexed_args b).*1 !! i = Some key)
      then Some (PyList [PyStr h])
      else arg_topics b !! i.
Proof.
  intros Hkey Hh i. unfold builder_match_single. rewrite Hkey.
  unfold match_single, _normalize. rewrite Hh. simpl.
  unfold arg_topics, builder_update, dict_replace. simpl.
  rewrite !list_lookup_fmap.
  destruct (indexed_args b !! i) as [[k a]|]; simpl.
  - destruct (decide (k = key)) as [->|Hne];
      repeat case_decide; simplify_eq; done.
  - repeat case_decide; simplify_eq; done.
Qed.

Lemma builder_match_single_topics_witness :
  ∃ b, builder_reachable string_event_abi b
       ∧ arg_topics (builder_match_single b "s" (PyStr "pizza")) !! 0
         = Some (PyList [PyStr (encode_hex
                   (keccak (String.list_byte_of_string "pizza")))]).
Proof.
  eexists. split.
  - apply builder_init. reflexivity.
  - match goal with
    | |- arg_topics (builder_match_single ?b _ _) !! _ = _ =>
        exact (builder_match_single_topics b "s" string_filter
                 (PyStr "pizza") _ eq_refl eq_refl 0)
    end.
Defined.
